(** * beancount-ynab5: a shallow embedding of [ynab.py] and its specification

    The import script [ynab.py] converts YNAB transactions into beancount
    entries.  This development embeds, in Rocq, the parts of the script that
    decide what is printed: the Python [decimal] arithmetic used by
    [from_milli], the lookup structures built from the YNAB JSON, the
    account router [to_bean], the classifier [get_target_account], the
    deduplicating import loop of [__main__], the listing mode
    [list_ynab_ids] and the budget selection [budget_from_json].

    Effects are modelled the way the script has them: the import loop
    threads the seen set, the import counter, the printed lines and the log
    records through a small state monad with Python exceptions. *)

From Stdlib Require Import ZArith QArith Bool List Ascii String Lia Sorted.
From stdpp Require Import base gmap sets list strings.

Open Scope Z_scope.

(* ------------------------------------------------------------------ *)
(** ** Python exceptions raised by the embedded code *)

Inductive exc : Type :=
| AttributeError      (* attribute missing on an object, e.g. [list.values] *)
| KeyError            (* dict lookup [d[k]] on a missing key *)
| AssertionError      (* a failing [assert] *)
| NoBudgetSpecified   (* [raise Exception('No budget specified.', ...)] *)
| BudgetNotFound      (* [raise Exception(f'Could not find any budget ...')] *)
| Overflow            (* decimal.Overflow, trapped in the default context *)
| DivisionByZero      (* decimal.DivisionByZero, trapped *)
| InvalidOperation.   (* decimal.InvalidOperation, trapped *)

(** Python's result of evaluating an expression: a value or an exception. *)
Inductive res (A : Type) : Type :=
| Ok (a : A)
| Raise (e : exc).
Arguments Ok {A} a.
Arguments Raise {A} e.

Definition res_bind {A B} (r : res A) (k : A -> res B) : res B :=
  match r with Ok a => k a | Raise e => Raise e end.

Notation "'let?' x ':=' r 'in' k" := (res_bind r (fun x => k))
  (at level 200, x name, r at level 100, k at level 200).

(* ------------------------------------------------------------------ *)
(** ** Python's [decimal] module (default context)

    [from_milli n = Decimal(n)/1000].  The quotient is computed as in
    CPython's [_pydecimal]: [Decimal.__truediv__] followed by [_fix] in the
    default context (precision 28, ROUND_HALF_EVEN, Emax 999999,
    Emin -999999, clamp 0, Overflow / DivisionByZero / InvalidOperation
    trapped).  A finite decimal is a sign, a coefficient (the digit string
    [_int], as a natural number) and an exponent. *)

Module PyDecimal.

Record Dec : Type := mkDec { dsign : bool; dcoef : Z; dexp : Z }.

Definition prec : Z := 28.
Definition Emax : Z := 999999.
Definition Emin : Z := -999999.
Definition Etiny : Z := Emin - prec + 1.
Definition Etop : Z := Emax - prec + 1.

(** [len(str(c))] for a coefficient [c >= 0]. *)
Fixpoint ndigits_aux (fuel : nat) (c : Z) : Z :=
  match fuel with
  | O => 1
  | S f => if c <? 10 then 1 else 1 + ndigits_aux f (c / 10)
  end.

Definition ndigits (c : Z) : Z := ndigits_aux (S (Z.to_nat (Z.log2 c))) c.

(** [Decimal(n)] for a Python [int]: exact. *)
Definition of_Z (n : Z) : Dec := mkDec (n <? 0) (Z.abs n) 0.

(** [_round_half_even(self, prec)] on a coefficient [c] of [l] digits,
    keeping its first [digits] digits: 1 rounds up, 0 is exact, -1 rounds
    down.  [self._int[digits]] is the first dropped digit, [_all_zeros]
    and [_exact_half] inspect the dropped tail [c mod 10^(l-digits)]. *)
Definition round_half_even (c l digits : Z) : Z :=
  let drop := l - digits in
  let tail := c mod 10 ^ drop in
  let half := 5 * 10 ^ (drop - 1) in
  if (tail =? half) && ((digits =? 0) || Z.even (c / 10 ^ drop))
  then -1
  else if half <=? tail then 1
  else if tail =? 0 then 0
  else -1.

(** [Decimal._fix(self, context)] for a finite decimal ([fix] is a keyword). *)
Definition fix_ (d : Dec) : res Dec :=
  let '(mkDec s c e) := d in
  if c =? 0 then
    Ok (mkDec s 0 (Z.min (Z.max e Etiny) Emax))
  else
    let exp_min := ndigits c + e - prec in
    if Etop <? exp_min then Raise Overflow
    else
      let exp_min := if exp_min <? Etiny then Etiny else exp_min in
      if e <? exp_min then
        let digits := ndigits c + e - exp_min in
        let '(c, digits) := if digits <? 0 then (1, 0) else (c, digits) in
        let changed := round_half_even c (ndigits c) digits in
        let coeff := c / 10 ^ (ndigits c - digits) in
        let '(coeff, exp_min) :=
          if 0 <? changed then
            let coeff := coeff + 1 in
            if prec <? ndigits coeff then (coeff / 10, exp_min + 1)
            else (coeff, exp_min)
          else (coeff, exp_min) in
        if Etop <? exp_min then Raise Overflow
        else Ok (mkDec s coeff exp_min)
      else Ok d.

(** The loop [while exp < ideal_exp and coeff % 10 == 0] of
    [__truediv__]; it runs at most [ideal_exp - exp] times. *)
Fixpoint trim (fuel : nat) (coeff e ideal : Z) : Z * Z :=
  match fuel with
  | O => (coeff, e)
  | S f =>
      if (e <? ideal) && (coeff mod 10 =? 0)
      then trim f (coeff / 10) (e + 1) ideal
      else (coeff, e)
  end.

(** [Decimal.__truediv__(self, other)] for finite operands. *)
Definition div (a b : Dec) : res Dec :=
  let sign := xorb (dsign a) (dsign b) in
  if dcoef b =? 0 then
    (if dcoef a =? 0 then Raise InvalidOperation else Raise DivisionByZero)
  else if dcoef a =? 0 then
    fix_ (mkDec sign 0 (dexp a - dexp b))
  else
    let shift := ndigits (dcoef b) - ndigits (dcoef a) + prec + 1 in
    let e := dexp a - dexp b - shift in
    let '(coeff, remainder) :=
      if 0 <=? shift then Z.div_eucl (dcoef a * 10 ^ shift) (dcoef b)
      else Z.div_eucl (dcoef a) (dcoef b * 10 ^ (- shift)) in
    if negb (remainder =? 0) then
      fix_ (mkDec sign (if coeff mod 5 =? 0 then coeff + 1 else coeff) e)
    else
      let ideal_exp := dexp a - dexp b in
      let '(coeff, e) := trim (Z.to_nat (ideal_exp - e)) coeff e ideal_exp in
      fix_ (mkDec sign coeff e).

(** [Decimal.__neg__] (rounding is ROUND_HALF_EVEN, not ROUND_FLOOR, so the
    negation of a zero is a positive zero). *)
Definition neg (d : Dec) : res Dec :=
  let '(mkDec s c e) := d in
  if c =? 0 then fix_ (mkDec false c e) else fix_ (mkDec (negb s) c e).

(** The rational number a decimal denotes. *)
Definition value (d : Dec) : Q :=
  let '(mkDec s c e) := d in
  let m := if s then - c else c in
  if 0 <=? e then inject_Z (m * 10 ^ e) else Qmake m (Z.to_pos (10 ^ (- e))).

End PyDecimal.

(** [def from_milli(n): return Decimal(n)/1000] *)
Definition from_milli (n : Z) : res PyDecimal.Dec :=
  PyDecimal.div (PyDecimal.of_Z n) (PyDecimal.of_Z 1000).

(* ------------------------------------------------------------------ *)
(** ** Records built from the YNAB JSON ([make_tuple])

    Only the fields the script reads are kept.  Optional JSON fields
    ([null] in the JSON, [None] in Python) are [option]s; a subtransaction
    without a [payee_name] key reads as [None] through [getattr]. *)

Record Account : Type := mkAccount { acc_id : string; acc_name : string }.

Record CategoryGroup : Type := mkCategoryGroup { grp_id : string; grp_name : string }.

Record Category : Type := mkCategory {
  cat_id : string; cat_name : string; category_group_id : string }.

Record Subtransaction : Type := mkSubtransaction {
  sub_id : string;
  sub_amount : Z;
  sub_memo : option string;
  sub_payee_name : option string;
  sub_category_id : option string;
  sub_transfer_account_id : option string;
  sub_transfer_transaction_id : option string }.

Record Transaction : Type := mkTransaction {
  t_id : string;
  t_date : string;
  t_amount : Z;
  t_memo : option string;
  t_cleared : string;
  t_deleted : bool;
  t_payee_name : option string;
  t_account_id : string;
  t_category_id : option string;
  t_transfer_account_id : option string;
  t_transfer_transaction_id : option string;
  t_subtransactions : list Subtransaction }.

(** Python truthiness of an optional string: [None] and [''] are false. *)
Definition truthy (o : option string) : bool :=
  match o with Some s => negb (String.eqb s "") | None => false end.

(** The string held by a truthy optional string. *)
Definition truthy_value (o : option string) : option string :=
  if truthy o then o else None.

(** [o == s] for an optional string [o] and a string [s]. *)
Definition opt_eqb (o : option string) (s : string) : bool :=
  match o with Some x => String.eqb x s | None => false end.

(** [o in seen] for an optional string: [None] is never in the set, whose
    elements are all strings. *)
Definition opt_mem (o : option string) (seen : gset string) : bool :=
  match o with Some x => bool_decide (x ∈ seen) | None => false end.

(* ------------------------------------------------------------------ *)
(** ** The beancount ledger: [get_existing_ynab_transaction_ids] and
    [build_account_mapping] *)

Inductive Entry : Type :=
| Open (account : string) (meta : gmap string string)
| Txn (meta : gmap string string)
| OtherEntry.

Definition get_existing_ynab_transaction_ids (entries : list Entry) : gset string :=
  fold_left (fun (seen : gset string) e =>
    match e with
    | Txn meta =>
        match meta !! "ynab-id" with Some v => {[ v ]} ∪ seen | None => seen end
    | _ => seen
    end) entries ∅.

Definition build_account_mapping (entries : list Entry) : gmap string string :=
  fold_left (fun (mapping : gmap string string) e =>
    match e with
    | Open account meta =>
        match meta !! "ynab-id" with
        | Some v => <[ v := account ]> mapping
        | None => mapping
        end
    | _ => mapping
    end) entries ∅.

(* ------------------------------------------------------------------ *)
(** ** [ynab_normalize]: drop [string.punctuation], then spaces become [-] *)

Definition is_punctuation (c : Ascii.ascii) : bool :=
  let n := Ascii.nat_of_ascii c in
  ((33 <=? n) && (n <=? 47) || (58 <=? n) && (n <=? 64)
   || (91 <=? n) && (n <=? 96) || (123 <=? n) && (n <=? 126))%nat.

Fixpoint ynab_normalize (name : string) : string :=
  match name with
  | EmptyString => EmptyString
  | String c rest =>
      if is_punctuation c then ynab_normalize rest
      else if Ascii.eqb c " "%char then String "-"%char (ynab_normalize rest)
      else String c (ynab_normalize rest)
  end.

Example ynab_normalize_imc :
  ynab_normalize "Internal Master Category" = "Internal-Master-Category".
Proof. reflexivity. Qed.

(* ------------------------------------------------------------------ *)
(** ** The resolution context: the variables the nested functions of
    [__main__] capture *)

Record Ctx : Type := mkCtx {
  ynab_accounts : gmap string Account;
  ynab_category_groups : gmap string CategoryGroup;
  ynab_categories : gmap string Category;
  account_mapping : gmap string string;
  asset_prefix : string;
  expense_prefix : string;
  income_prefix : string;
  inflows_category_id : string;
  commodity : string;
  skip_starting_balances : bool;
  balance_adjustment_account : option string }.

(** [fmt_ynab_category(id, groups, categories)]: both lookups are [d[k]]. *)
Definition fmt_ynab_category (id : string) (groups : gmap string CategoryGroup)
    (categories : gmap string Category) : res string :=
  match categories !! id with
  | None => Raise KeyError
  | Some c =>
      match groups !! category_group_id c with
      | None => Raise KeyError
      | Some g => Ok (grp_name g ++ ":" ++ cat_name c)%string
      end
  end.

(** [to_bean(id)]: the default is computed first, then
    [account_mapping.get(id, bean_default)]. *)
Definition to_bean (ctx : Ctx) (id : string) : res string :=
  let? bean_default :=
    match ynab_accounts ctx !! id with
    | Some a => Ok (asset_prefix ctx ++ ":" ++ acc_name a)%string
    | None =>
        if String.eqb id (inflows_category_id ctx) then
          let? n := fmt_ynab_category id (ynab_category_groups ctx) (ynab_categories ctx) in
          Ok (income_prefix ctx ++ ":" ++ n)%string
        else if bool_decide (is_Some (ynab_categories ctx !! id)) then
          let? n := fmt_ynab_category id (ynab_category_groups ctx) (ynab_categories ctx) in
          Ok (expense_prefix ctx ++ ":" ++ n)%string
        else Ok id
    end in
  Ok (match account_mapping ctx !! id with Some p => p | None => bean_default end).

(* ------------------------------------------------------------------ *)
(** ** What the script prints and logs

    Each [print] call of the script is one [Line]; the f-string padding
    ([:<50], [:>10]) is left to the rendering of the fields.  Each
    [logging] call is one [LogEntry], whether or not the configured level
    lets it through. *)

Inductive Line : Type :=
| LHeader (date : string) (payee : option string) (memo : string)
    (* f'{t.date} * "{t.payee_name}" {fmt_memo(t.memo)}' *)
| LMeta (id : string)                       (* f'  ynab-id: "{t.id}"' *)
| LPosting (account : string) (amount : PyDecimal.Dec) (commodity : string)
| LSubPosting (account : string) (amount : PyDecimal.Dec) (commodity : string)
    (memo : option string)
| LBare (account : string)                  (* f'  {get_target_account(t, ...)}' *)
| LBlank                                    (* print() *)
| LListIdPart (id : string)                (* print(item[0], end=' ') *)
| LListName (name : string)                 (* print(formatter(item[1])) *)
| LListMapping (bean_account : string).     (* print(' ' * 36, bean_account) *)

Inductive LogEntry : Type :=
| DebugSkipStartBudget (date account : string)
| DebugSkipStartTracking (date account : string)
| WarnNoLeg (date account : string) (payee : option string) (amount : PyDecimal.Dec)
| DebugSkipDup (date : string) (payee : option string)
| DebugSkipDupTransfer (date : string) (payee : option string)
| InfoAdjustment (account id : string)
| InfoImported (count : Z).

(** The mutable state of [__main__]. *)
Record St : Type := mkSt {
  seen_transactions : gset string;
  count : Z;
  out : list Line;
  logs : list LogEntry }.

(** State monad with Python exceptions: the state reached when an exception
    is raised is kept, so lines printed before it stay printed. *)
Definition M (A : Type) : Type := St -> St * res A.

Definition ret {A} (a : A) : M A := fun s => (s, Ok a).
Definition bind {A B} (m : M A) (k : A -> M B) : M B :=
  fun s => let '(s', r) := m s in
    match r with Ok a => k a s' | Raise e => (s', Raise e) end.
Definition lift {A} (r : res A) : M A := fun s => (s, r).

Notation "'let*' x ':=' m 'in' k" := (bind m (fun x => k))
  (at level 200, x name, m at level 100, k at level 200).

Definition print (l : Line) : M unit :=
  fun s => (mkSt (seen_transactions s) (count s) (out s ++ [l]) (logs s), Ok tt).
Definition log (e : LogEntry) : M unit :=
  fun s => (mkSt (seen_transactions s) (count s) (out s) (logs s ++ [e]), Ok tt).
Definition add_seen (x : string) : M unit :=
  fun s => (mkSt ({[ x ]} ∪ seen_transactions s) (count s) (out s) (logs s), Ok tt).
Definition incr_count : M unit :=
  fun s => (mkSt (seen_transactions s) (count s + 1) (out s) (logs s), Ok tt).
Definition get_seen : M (gset string) := fun s => (s, Ok (seen_transactions s)).

(** The double quote character. *)
Definition dquote : string := String (ascii_of_nat 34) EmptyString.

Definition fmt_memo (memo : option string) : string :=
  match memo with
  | Some m => if truthy memo then (dquote ++ m ++ dquote)%string else ""
  | None => ""
  end.

Definition FIXME_leg : string := "; FIXME. Error could only generate one leg from YNAB data.".

(** [get_target_account(txn, adjustment_account)], on the fields it reads
    ([getattr(txn, 'payee_name', None)], [memo], [category_id],
    [transfer_account_id], [id]) so that it serves transactions and
    subtransactions alike. *)
Definition get_target_account (ctx : Ctx)
    (payee_name memo category_id transfer_account_id : option string)
    (id : string) (adjustment_account : option string) : M string :=
  let classify :=
    match truthy_value category_id with
    | Some c => lift (to_bean ctx c)
    | None =>
        match truthy_value transfer_account_id with
        | Some a => lift (to_bean ctx a)
        | None => ret FIXME_leg
        end
    end in
  match truthy_value adjustment_account with
  | Some adj =>
      if opt_eqb payee_name "Reconciliation Balance Adjustment"
         && opt_eqb memo "Entered automatically by YNAB"
      then let* _ := log (InfoAdjustment adj id) in ret adj
      else classify
  | None => classify
  end.

(* ------------------------------------------------------------------ *)
(** ** The import loop of [__main__] *)

(** The generator filter: [t['cleared'] == 'reconciled' and not t['deleted']]. *)
Definition eligible (t : Transaction) : bool :=
  String.eqb (t_cleared t) "reconciled" && negb (t_deleted t).

(** The split branch: one posting per subtransaction, amount negated. *)
Fixpoint emit_subtransactions (ctx : Ctx) (subs : list Subtransaction) : M unit :=
  match subs with
  | [] => ret tt
  | sub :: rest =>
      let* tgt := get_target_account ctx (sub_payee_name sub) (sub_memo sub)
                    (sub_category_id sub) (sub_transfer_account_id sub) (sub_id sub)
                    (balance_adjustment_account ctx) in
      let* m := lift (from_milli (sub_amount sub)) in
      let* nm := lift (PyDecimal.neg m) in
      let* _ := print (LSubPosting tgt nm (commodity ctx) (sub_memo sub)) in
      let* _ := match truthy_value (sub_transfer_transaction_id sub) with
                | Some x => add_seen x
                | None => ret tt
                end in
      emit_subtransactions ctx rest
  end.

(** Lines 402-422: count, print and mark a transaction as imported. *)
Definition emit (ctx : Ctx) (t : Transaction) : M unit :=
  let* _ := incr_count in
  let* _ := print (LHeader (t_date t) (t_payee_name t) (fmt_memo (t_memo t))) in
  let* _ := print (LMeta (t_id t)) in
  let* _ := add_seen (t_id t) in
  let* _ := match truthy_value (t_transfer_transaction_id t) with
            | Some x => add_seen x
            | None => ret tt
            end in
  let* a := lift (to_bean ctx (t_account_id t)) in
  let* m := lift (from_milli (t_amount t)) in
  let* _ := print (LPosting a m (commodity ctx)) in
  let* _ := match t_subtransactions t with
            | [] =>
                let* tgt := get_target_account ctx (t_payee_name t) (t_memo t)
                              (t_category_id t) (t_transfer_account_id t) (t_id t)
                              (balance_adjustment_account ctx) in
                print (LBare tgt)
            | subs => emit_subtransactions ctx subs
            end in
  print LBlank.

(** Lines 386-392: the warning for a transaction without a second leg. *)
Definition warn_no_leg (ctx : Ctx) (t : Transaction) : M unit :=
  if negb (truthy (t_category_id t)) && negb (truthy (t_transfer_account_id t))
  then
    let* a := lift (to_bean ctx (t_account_id t)) in
    let* m := lift (from_milli (t_amount t)) in
    log (WarnNoLeg (t_date t) a (t_payee_name t) m)
  else ret tt.

(** Lines 394-422: the deduplication gate, then [emit]. *)
Definition dedup_gate (ctx : Ctx) (t : Transaction) : M unit :=
  let* seen := get_seen in
  if bool_decide (t_id t ∈ seen) then log (DebugSkipDup (t_date t) (t_payee_name t))
  else if opt_mem (t_transfer_transaction_id t) seen
  then log (DebugSkipDupTransfer (t_date t) (t_payee_name t))
  else emit ctx t.

Definition process_checked (ctx : Ctx) (t : Transaction) : M unit :=
  let* _ := warn_no_leg ctx t in dedup_gate ctx t.

(** The body of the loop, lines 373-422 (each [continue] ends the body). *)
Definition process (ctx : Ctx) (t : Transaction) : M unit :=
  if skip_starting_balances ctx then
    if opt_eqb (t_payee_name t) "Starting Balance"
       && opt_eqb (t_category_id t) (inflows_category_id ctx) then
      let* a := lift (to_bean ctx (t_account_id t)) in
      log (DebugSkipStartBudget (t_date t) a)
    else if opt_eqb (t_payee_name t) "Starting Balance" && negb (truthy (t_category_id t)) then
      let* a := lift (to_bean ctx (t_account_id t)) in
      log (DebugSkipStartTracking (t_date t) a)
    else process_checked ctx t
  else process_checked ctx t.

Fixpoint loop (ctx : Ctx) (ts : list Transaction) : M unit :=
  match ts with
  | [] => ret tt
  | t :: rest => let* _ := process ctx t in loop ctx rest
  end.

(** [for t in (t for t in ynab_transactions if ...)]: the generator filters
    lazily, which is the same as filtering first since the filter has no
    effect. *)
Definition import_loop (ctx : Ctx) (ynab_transactions : list Transaction) : M unit :=
  loop ctx (List.filter eligible ynab_transactions).

(* ------------------------------------------------------------------ *)
(** ** Resolution of the inflows category, lines 347-352 *)

Definition resolve_inflows (groups : gmap string CategoryGroup)
    (categories : gmap string Category) : res string :=
  let r := map grp_id (List.filter (fun g => String.eqb (grp_name g)
                                  (ynab_normalize "Internal Master Category"))
                         (map snd (map_to_list groups))) in
  match r with
  | [ynab_internal_master_category_id] =>
      let r := map cat_id (List.filter (fun c => String.eqb (cat_name c) (ynab_normalize "Inflows")
                                   && String.eqb (category_group_id c) ynab_internal_master_category_id)
                             (map snd (map_to_list categories))) in
      match r with
      | [inflows_category_id] => Ok inflows_category_id
      | _ => Raise AssertionError
      end
  | _ => Raise AssertionError
  end.

(* ------------------------------------------------------------------ *)
(** ** [list_ynab_ids]

    [sorted(ids.items(), key=lambda x: x[1])] compares the namedtuples
    themselves, field by field in the order of the keys of the YNAB JSON
    object they were built from: an account is [{"id", "name", ...}], a
    category [{"id", "category_group_id", "name", ...}].  Every record is
    stored under its own id, so two records never tie on their first field
    and the later fields (of mixed types) are never compared. *)

Definition account_lt (a b : Account) : bool :=
  String.ltb (acc_id a) (acc_id b)
  || String.eqb (acc_id a) (acc_id b) && String.ltb (acc_name a) (acc_name b).

Definition category_lt (a b : Category) : bool :=
  String.ltb (cat_id a) (cat_id b)
  || String.eqb (cat_id a) (cat_id b)
     && (String.ltb (category_group_id a) (category_group_id b)
         || String.eqb (category_group_id a) (category_group_id b)
            && String.ltb (cat_name a) (cat_name b)).

(** A stable sort ([sorted] is stable): insertion after the elements that
    are not greater. *)
Fixpoint insert_by {A} (lt : A -> A -> bool) (x : A) (l : list A) : list A :=
  match l with
  | [] => [x]
  | y :: l' => if lt x y then x :: l else y :: insert_by lt x l'
  end.

Definition sort_by {A} (lt : A -> A -> bool) (l : list A) : list A :=
  fold_left (fun acc x => insert_by lt x acc) l [].

(** [pretty_print(ids, formatter)] *)
Fixpoint pretty_print_items {A} (account_mapping : gmap string string)
    (formatter : A -> res string) (items : list (string * A)) : M unit :=
  match items with
  | [] => ret tt
  | item :: rest =>
      let* _ := print (LListIdPart item.1) in
      let* n := lift (formatter item.2) in
      let* _ := print (LListName n) in
      let bean_account := match account_mapping !! item.1 with
                          | Some b => b | None => "(none)" end in
      let* _ := print (LListMapping bean_account) in
      pretty_print_items account_mapping formatter rest
  end.

Definition pretty_print {A} (account_mapping : gmap string string) (lt : A -> A -> bool)
    (ids : gmap string A) (formatter : A -> res string) : M unit :=
  pretty_print_items account_mapping formatter
    (sort_by (fun x y => lt x.2 y.2) (map_to_list ids)).

Definition list_ynab_ids (account_mapping : gmap string string)
    (accounts : gmap string Account) (groups : gmap string CategoryGroup)
    (categories : gmap string Category) : M unit :=
  let* _ := pretty_print account_mapping account_lt accounts (fun x => Ok (acc_name x)) in
  pretty_print account_mapping category_lt categories
    (fun x => fmt_ynab_category (cat_id x) groups categories).

(* ------------------------------------------------------------------ *)
(** ** [budget_from_json] *)

Record Budget : Type := mkBudget { b_id : string; b_name : string; iso_code : string }.

(** [json_budgets] is [d['data']['budgets']], a JSON array, i.e. a Python
    list; the single-budget branch evaluates [json_budgets.values()], and a
    list has no attribute [values].  [make_budget] only repackages the
    record. *)
Definition budget_from_json (budget : option string) (json_budgets : list Budget) : res Budget :=
  if (1 <? length json_budgets)%nat then
    match truthy_value budget with
    | None => Raise NoBudgetSpecified
    | Some name =>
        match List.filter (fun a => String.eqb (b_name a) name) json_budgets with
        | [b] => Ok b
        | _ => Raise BudgetNotFound
        end
    end
  else Raise AttributeError.

(* ------------------------------------------------------------------ *)
(** ** [__main__] after the fetch *)

Record Config : Type := mkConfig {
  beancount_entries : list Entry;
  name_assets : string;
  name_expenses : string;
  name_income : string;
  list_ynab_ids_mode : bool;
  skip_starting_balances_flag : bool;
  balance_adjustment_account_flag : option string }.

(** The snapshot returned by the fetcher (either of them). *)
Record Snapshot : Type := mkSnapshot {
  budget : Budget;
  snap_accounts : gmap string Account;
  snap_category_groups : gmap string CategoryGroup;
  snap_categories : gmap string Category;
  snap_transactions : list Transaction }.

Definition get_count : M Z := fun s => (s, Ok (count s)).

(** The closure variables of [to_bean] and of the loop, once the inflows
    category is resolved. *)
(** The remote data has one master category group [g] and, in it, one
    Inflows category [c]: the two list comprehensions of the resolution each
    select exactly one record. *)
Definition inflows_unique (groups : gmap string CategoryGroup)
    (categories : gmap string Category) (c : Category) : Prop :=
  exists g,
    List.filter (fun g => String.eqb (grp_name g) (ynab_normalize "Internal Master Category"))
      (map snd (map_to_list groups)) = [g] /\
    List.filter (fun c => String.eqb (cat_name c) (ynab_normalize "Inflows")
                          && String.eqb (category_group_id c) (grp_id g))
      (map snd (map_to_list categories)) = [c].

Definition import_ctx (cfg : Config) (snap : Snapshot) (inflows : string) : Ctx :=
  mkCtx (snap_accounts snap) (snap_category_groups snap) (snap_categories snap)
    (build_account_mapping (beancount_entries cfg)) (name_assets cfg) (name_expenses cfg)
    (name_income cfg) inflows (iso_code (budget snap)) (skip_starting_balances_flag cfg)
    (balance_adjustment_account_flag cfg).

Definition main_body (cfg : Config) (snap : Snapshot) : M unit :=
  let account_mapping := build_account_mapping (beancount_entries cfg) in
  if list_ynab_ids_mode cfg then
    list_ynab_ids account_mapping (snap_accounts snap) (snap_category_groups snap)
      (snap_categories snap)
  else
    let* inflows := lift (resolve_inflows (snap_category_groups snap) (snap_categories snap)) in
    let* _ := import_loop (import_ctx cfg snap inflows) (snap_transactions snap) in
    let* c := get_count in
    log (InfoImported c).

(** The state before the loop: the seen set is seeded from the ledger,
    nothing is printed yet. *)
Definition seed (cfg : Config) : St :=
  mkSt (get_existing_ynab_transaction_ids (beancount_entries cfg)) 0 [] [].

Definition main (cfg : Config) (snap : Snapshot) : St * res unit :=
  main_body cfg snap (seed cfg).

(** The same snapshot with another transaction list. *)
Definition with_transactions (snap : Snapshot) (ts : list Transaction) : Snapshot :=
  mkSnapshot (budget snap) (snap_accounts snap) (snap_category_groups snap)
    (snap_categories snap) ts.

(** Two transactions whose [transfer_transaction_id] fields point at each
    other. *)
Definition transfer_pair (a b : Transaction) : Prop :=
  t_transfer_transaction_id a = Some (t_id b) /\ t_transfer_transaction_id b = Some (t_id a).

(* ------------------------------------------------------------------ *)
(** ** A sample budget used by the examples, witnesses and counterexamples *)

Definition g_imc : CategoryGroup := mkCategoryGroup "g-imc" "Internal-Master-Category".
Definition g_food : CategoryGroup := mkCategoryGroup "g-food" "Food".
Definition c_inflows : Category := mkCategory "c-inflows" "Inflows" "g-imc".
Definition c_groceries : Category := mkCategory "c-groceries" "Groceries" "g-food".
Definition a_checking : Account := mkAccount "a-checking" "Checking".
Definition a_savings : Account := mkAccount "a-savings" "Savings".

Definition sample_groups : gmap string CategoryGroup :=
  <[ "g-imc" := g_imc ]> (<[ "g-food" := g_food ]> ∅).
Definition sample_categories : gmap string Category :=
  <[ "c-inflows" := c_inflows ]> (<[ "c-groceries" := c_groceries ]> ∅).
Definition sample_accounts : gmap string Account :=
  <[ "a-checking" := a_checking ]> (<[ "a-savings" := a_savings ]> ∅).

(** A reconciled, non-deleted transaction with the given id, transfer
    fields, amount and subtransactions. *)
Definition sample_txn (id : string) (category_id transfer_account_id
    transfer_transaction_id : option string) (amount : Z)
    (subs : list Subtransaction) : Transaction :=
  mkTransaction id "2026-01-02" amount None "reconciled" false (Some "Payee")
    "a-checking" category_id transfer_account_id transfer_transaction_id subs.

Definition sample_ctx (mapping : gmap string string) : Ctx :=
  mkCtx sample_accounts sample_groups sample_categories mapping
    "Assets" "Expenses" "Income" "c-inflows" "USD" false None.

Definition st0 (seen : gset string) : St := mkSt seen 0 [] [].

Definition sample_cfg (entries : list Entry) : Config :=
  mkConfig entries "Assets" "Expenses" "Income" false false None.

Definition sample_snap (ts : list Transaction) : Snapshot :=
  mkSnapshot (mkBudget "b-1" "My Budget" "USD") sample_accounts sample_groups
    sample_categories ts.

(** A ledger transaction carrying [ynab-id: id]. *)
Definition ledger_txn (id : string) : Entry := Txn (<[ "ynab-id" := id ]> ∅).

(** Two unrelated reconciled purchases, an uncleared one, a split whose
    subtransaction is a transfer, and the other leg of that transfer. *)
Definition pay_a : Transaction := sample_txn "t-a" (Some "c-groceries") None None (-1000) [].
Definition pay_b : Transaction := sample_txn "t-b" (Some "c-groceries") None None (-2000) [].
Definition pay_uncleared : Transaction :=
  mkTransaction "t-u" "2026-01-03" (-4000) None "cleared" false (Some "Shop")
    "a-checking" (Some "c-groceries") None None [].
Definition split_transfer : Transaction :=
  sample_txn "t-s" None None None (-3000)
    [mkSubtransaction "s-1" (-3000) None None None (Some "a-savings") (Some "t-x")].
Definition split_other_leg : Transaction :=
  mkTransaction "t-x" "2026-01-02" 3000 None "reconciled" false (Some "Transfer")
    "a-savings" None (Some "a-checking") (Some "s-1") [].

(** The two legs of a transfer between the two sample accounts. *)
Definition leg1 : Transaction :=
  sample_txn "t-1" None (Some "a-savings") (Some "t-2") (-12500) [].
Definition leg2 : Transaction :=
  mkTransaction "t-2" "2026-01-02" 12500 None "reconciled" false (Some "Transfer")
    "a-savings" None (Some "a-checking") (Some "t-1") [].

(* ------------------------------------------------------------------ *)
(** ** The converters of the fetched JSON *)

(** [accounts_from_json(json_accounts)]: the name is normalised in place,
    then the record is stored under its id (a later account with the same id
    replaces an earlier one). *)
Definition accounts_from_json (json_accounts : list Account) : gmap string Account :=
  fold_left (fun (result : gmap string Account) a =>
    let account := mkAccount (acc_id a) (ynab_normalize (acc_name a)) in
    <[ acc_id account := account ]> result) json_accounts ∅.

(** A category group of the JSON, its categories nested under it. *)
Record JsonCategoryGroup : Type := mkJsonCategoryGroup {
  jg_id : string; jg_name : string; jg_categories : list Category }.

(** [categories_from_json(json_categories)]: a group, then its categories,
    each with its name normalised and stored under its own id; the result
    is [(group_result, category_result)]. *)
Definition categories_from_json (json_categories : list JsonCategoryGroup)
    : gmap string CategoryGroup * gmap string Category :=
  fold_left (fun '(group_result, category_result) g =>
    let group := mkCategoryGroup (jg_id g) (ynab_normalize (jg_name g)) in
    let group_result := <[ grp_id group := group ]> group_result in
    let category_result :=
      fold_left (fun (category_result : gmap string Category) c =>
        let category := mkCategory (cat_id c) (ynab_normalize (cat_name c)) (category_group_id c) in
        <[ cat_id category := category ]> category_result) (jg_categories g) category_result in
    (group_result, category_result)) json_categories (∅, ∅).

(** [NegateAction.__call__]: [setattr(ns, self.dest, option[2:9] != 'disable')];
    [substring 2 7] is the slice [[2:9]], clamped like Python's. *)
Definition NegateAction (option : string) : bool :=
  negb (String.eqb (substring 2 7 option) "disable").

(** The ids of the [ynab-id] metadata lines among printed lines. *)
Definition meta_ids (ls : list Line) : list string :=
  flat_map (fun l => match l with LMeta id => [id] | _ => [] end) ls.

(* ------------------------------------------------------------------ *)
(** ** Vocabulary for the order of the fetched transactions *)

Definition opt_list (o : option string) : list string :=
  match o with Some x => [x] | None => [] end.

(** The ids the deduplication gate of lines 395-400 looks up in
    [seen_transactions] for [t]. *)
Definition dedup_keys (t : Transaction) : list string :=
  t_id t :: opt_list (t_transfer_transaction_id t).

(** The ids processing [t] can add to [seen_transactions] (lines 407-408
    and 418). *)
Definition seen_marks (t : Transaction) : list string :=
  t_id t :: opt_list (truthy_value (t_transfer_transaction_id t)) ++
  flat_map (fun sub => opt_list (truthy_value (sub_transfer_transaction_id sub)))
    (t_subtransactions t).

(** Transactions none of which can make the deduplication gate skip
    another: their ids are distinct, and no id one of them marks is an id
    the gate looks up for another. *)
Definition independent (ts : list Transaction) : Prop :=
  NoDup (map t_id ts) /\
  forall t u, In t ts -> In u ts -> t_id t <> t_id u ->
    forall x, In x (seen_marks t) -> ~ In x (dedup_keys u).

(** The state with the seen set of [s], a zero counter and no output. *)
Definition local_state (s : St) : St := mkSt (seen_transactions s) 0 [] [].

(** The lines the loop body prints for [t] on its own, from the seen set
    of [s]. *)
Definition entry_block (ctx : Ctx) (s : St) (t : Transaction) : list Line :=
  out (fst (process ctx t (local_state s))).

(** The number [t] adds to [count] on its own, from the seen set of [s]. *)
Definition entry_count (ctx : Ctx) (s : St) (t : Transaction) : Z :=
  count (fst (process ctx t (local_state s))).

(** Running from the state [s] after a prefix [f]: seen sets are joined,
    counters added, output and logs concatenated. *)
Definition shift (f s : St) : St :=
  mkSt (seen_transactions f ∪ seen_transactions s) (count f + count s)
    (out f ++ out s) (logs f ++ logs s).

(** An action that reads nothing of the state it runs after. *)
Definition translatable {A} (m : M A) : Prop :=
  forall f s, m (shift f s) = (shift f (fst (m s)), snd (m s)).

(** An action that adds to the seen set only ids of [X]. *)
Definition adds_within {A} (X : gset string) (m : M A) : Prop :=
  forall s, seen_transactions (fst (m s)) ⊆ seen_transactions s ∪ X.

(* ================================================================== *)
(** * Properties *)

(** ** Sanity checks of the decimal model against Python's [decimal] *)

Example from_milli_12500 : from_milli 12500 = Ok (PyDecimal.mkDec false 125 (-1)).
Proof. vm_compute. reflexivity. Qed.
Example from_milli_big :
  from_milli (10 ^ 28 + 1) = Ok (PyDecimal.mkDec false (10 ^ 27) (-2)).
Proof. vm_compute. reflexivity. Qed.
Example from_milli_neg : from_milli (-5) = Ok (PyDecimal.mkDec true 5 (-3)).
Proof. vm_compute. reflexivity. Qed.
Example from_milli_50 :
  from_milli (10 ^ 29 + 50) = Ok (PyDecimal.mkDec false (10 ^ 27) (-1)).
Proof. vm_compute. reflexivity. Qed.
Example from_milli_95 :
  from_milli 123456789012345678901234567895 =
  Ok (PyDecimal.mkDec false 1234567890123456789012345679 (-1)).
Proof. vm_compute. reflexivity. Qed.
Example from_milli_0 : from_milli 0 = Ok (PyDecimal.mkDec false 0 0).
Proof. vm_compute. reflexivity. Qed.
Example from_milli_5000 : from_milli 5000 = Ok (PyDecimal.mkDec false 5 0).
Proof. vm_compute. reflexivity. Qed.


(** ** Frame lemmas: what a skipped transaction leaves unchanged *)

(** [s'] differs from [s] at most in its log records. *)
Definition frame (s s' : St) : Prop :=
  seen_transactions s' = seen_transactions s /\ count s' = count s /\ out s' = out s.

Lemma frame_refl s : frame s s.
Proof. repeat split. Qed.

Lemma frame_trans s1 s2 s3 : frame s1 s2 -> frame s2 s3 -> frame s1 s3.
Proof. intros (?&?&?) (?&?&?); repeat split; congruence. Qed.

Lemma frame_log s e : frame s (mkSt (seen_transactions s) (count s) (out s) (logs s ++ [e])).
Proof. repeat split. Qed.

Lemma warn_no_leg_frame ctx t s : frame s (fst (warn_no_leg ctx t s)).
Proof.
  unfold warn_no_leg. destruct (_ && _); [|apply frame_refl].
  unfold bind, lift. destruct (to_bean _ _); [|apply frame_refl].
  destruct (from_milli _); [|apply frame_refl]. apply frame_log.
Qed.

Lemma process_checked_dup ctx t s :
  t_id t ∈ seen_transactions s \/ opt_mem (t_transfer_transaction_id t) (seen_transactions s) = true ->
  frame s (fst (process_checked ctx t s)).
Proof.
  intros Hdup. unfold process_checked, bind at 1.
  pose proof (warn_no_leg_frame ctx t s) as Hw.
  destruct (warn_no_leg ctx t s) as [s1 [[]|e]]; simpl in *; [|exact Hw].
  destruct Hw as (Hs&Hc&Ho).
  unfold dedup_gate, bind, get_seen. rewrite Hs.
  destruct Hdup as [Hin|Hin].
  - rewrite bool_decide_eq_true_2 by exact Hin. unfold frame. simpl. auto.
  - destruct (bool_decide _); [unfold frame; simpl; auto|].
    rewrite Hin. unfold frame. simpl. auto.
Qed.

Lemma process_dup ctx t s :
  t_id t ∈ seen_transactions s \/ opt_mem (t_transfer_transaction_id t) (seen_transactions s) = true ->
  frame s (fst (process ctx t s)).
Proof.
  intros Hdup. unfold process.
  destruct (skip_starting_balances ctx); [|now apply process_checked_dup].
  destruct (_ && _).
  { unfold bind, lift, log. destruct (to_bean _ _); simpl; repeat split. }
  destruct (_ && _).
  { unfold bind, lift, log. destruct (to_bean _ _); simpl; repeat split. }
  now apply process_checked_dup.
Qed.

(** ** The seen set only grows *)

Definition grows {A} (m : M A) : Prop :=
  forall s, seen_transactions s ⊆ seen_transactions (fst (m s)).

Lemma grows_ret {A} (a : A) : grows (ret a).
Proof. intros s. simpl. set_solver. Qed.
Lemma grows_lift {A} (r : res A) : grows (lift r).
Proof. intros s. simpl. set_solver. Qed.
Lemma grows_print l : grows (print l).
Proof. intros s. simpl. set_solver. Qed.
Lemma grows_log e : grows (log e).
Proof. intros s. simpl. set_solver. Qed.
Lemma grows_add_seen x : grows (add_seen x).
Proof. intros s. simpl. set_solver. Qed.
Lemma grows_incr_count : grows incr_count.
Proof. intros s. simpl. set_solver. Qed.
Lemma grows_get_seen : grows get_seen.
Proof. intros s. simpl. set_solver. Qed.
Lemma grows_get_count : grows get_count.
Proof. intros s. simpl. set_solver. Qed.

Lemma grows_bind {A B} (m : M A) (k : A -> M B) :
  grows m -> (forall a, grows (k a)) -> grows (bind m k).
Proof.
  intros Hm Hk s. unfold bind. specialize (Hm s).
  destruct (m s) as [s' [a|e]]; simpl in *; [|exact Hm].
  specialize (Hk a s'). set_solver.
Qed.

Create HintDb grows_db.
#[local] Hint Resolve grows_ret grows_lift grows_print grows_log grows_add_seen
  grows_incr_count grows_get_seen grows_get_count : grows_db.

(** Splits the binds and the branches of a monadic program. *)
Ltac solve_grows :=
  repeat (match goal with
          | |- grows (bind _ _) => apply grows_bind; [|intro]
          | |- grows (if ?b then _ else _) => destruct b
          | |- grows (match ?o with _ => _ end) => destruct o
          end; auto with grows_db);
  auto with grows_db.

Lemma grows_get_target_account ctx p m c a i adj : grows (get_target_account ctx p m c a i adj).
Proof. unfold get_target_account. solve_grows. Qed.
#[local] Hint Resolve grows_get_target_account : grows_db.

Lemma grows_emit_subtransactions ctx subs : grows (emit_subtransactions ctx subs).
Proof. induction subs as [|sub subs IH]; simpl; solve_grows. Qed.
#[local] Hint Resolve grows_emit_subtransactions : grows_db.

Lemma grows_emit ctx t : grows (emit ctx t).
Proof. unfold emit. solve_grows. Qed.
#[local] Hint Resolve grows_emit : grows_db.

Lemma grows_process ctx t : grows (process ctx t).
Proof. unfold process, process_checked, warn_no_leg, dedup_gate. solve_grows. Qed.
#[local] Hint Resolve grows_process : grows_db.

Lemma grows_loop ctx ts : grows (loop ctx ts).
Proof. induction ts; simpl; solve_grows. Qed.

Lemma bind_ok {A B} (m : M A) (k : A -> M B) s s' a :
  m s = (s', Ok a) -> bind m k s = k a s'.
Proof. intros H. unfold bind. now rewrite H. Qed.

(** After [emit], the transaction's id and its transfer counterpart are in
    the seen set, whether or not the rest of the entry raised. *)
Lemma emit_marks ctx t s :
  t_id t ∈ seen_transactions (fst (emit ctx t s)) /\
  (forall x, truthy_value (t_transfer_transaction_id t) = Some x ->
             x ∈ seen_transactions (fst (emit ctx t s))).
Proof.
  unfold emit.
  do 4 (erewrite bind_ok by reflexivity).
  destruct (truthy_value (t_transfer_transaction_id t)) as [y|] eqn:E;
    erewrite bind_ok by reflexivity;
    match goal with |- context [fst (?m ?s')] =>
      assert (Hg : grows m) by solve_grows; specialize (Hg s') end;
    simpl in Hg; split; try intros x Hx; try congruence; try set_solver.
Qed.

(** A transaction is imported exactly when [process] increments the count;
    it then marks its id and its transfer counterpart. *)
Lemma process_imported_marks ctx t s :
  count (fst (process ctx t s)) <> count s ->
  t_id t ∈ seen_transactions (fst (process ctx t s)) /\
  (forall x, truthy_value (t_transfer_transaction_id t) = Some x ->
             x ∈ seen_transactions (fst (process ctx t s))).
Proof.
  assert (Hpc : count (fst (process_checked ctx t s)) <> count s ->
    t_id t ∈ seen_transactions (fst (process_checked ctx t s)) /\
    (forall x, truthy_value (t_transfer_transaction_id t) = Some x ->
               x ∈ seen_transactions (fst (process_checked ctx t s)))).
  { unfold process_checked, bind at 1 2 3.
    pose proof (warn_no_leg_frame ctx t s) as Hw.
    destruct (warn_no_leg ctx t s) as [s1 [[]|e]]; simpl in *;
      [|destruct Hw as (_&?&_); congruence].
    destruct Hw as (Hs&Hc&Ho). intros Hne.
    unfold dedup_gate, bind, get_seen in *. simpl in *.
    destruct (bool_decide _); [simpl in Hne; congruence|].
    destruct (opt_mem _ _); [simpl in Hne; congruence|].
    apply emit_marks. }
  unfold process.
  destruct (skip_starting_balances ctx); [|exact Hpc].
  destruct (_ && _).
  { unfold bind, lift, log. destruct (to_bean _ _); simpl; congruence. }
  destruct (_ && _).
  { unfold bind, lift, log. destruct (to_bean _ _); simpl; congruence. }
  exact Hpc.
Qed.

(** ** The loop *)

Lemma loop_app ctx l1 l2 s :
  loop ctx (l1 ++ l2) s = bind (loop ctx l1) (fun _ => loop ctx l2) s.
Proof.
  revert s. induction l1 as [|t l1 IH]; intros s; [reflexivity|].
  simpl. unfold bind at 1 2 3.
  destruct (process ctx t s) as [s1 [[]|e]]; [|reflexivity].
  apply IH.
Qed.

(** A run over transactions that are all already seen changes nothing but
    the logs. *)
Lemma loop_all_seen ctx ts s :
  (forall t, In t ts -> t_id t ∈ seen_transactions s) ->
  frame s (fst (loop ctx ts s)).
Proof.
  revert s. induction ts as [|t ts IH]; intros s Hall; [apply frame_refl|].
  simpl. unfold bind at 1.
  pose proof (process_dup ctx t s (or_introl (Hall t (or_introl eq_refl)))) as Hf.
  destruct (process ctx t s) as [s1 [[]|e]]; simpl in *; [|exact Hf].
  apply (frame_trans _ s1); [exact Hf|].
  apply IH. intros t' Ht'. destruct Hf as (Hs&_&_). rewrite Hs.
  apply Hall. now right.
Qed.

Lemma truthy_value_nonempty x : x <> "" -> truthy_value (Some x) = Some x.
Proof.
  intros H. unfold truthy_value, truthy.
  destruct (String.eqb_spec x ""); [contradiction|reflexivity].
Qed.

(** The run in import mode, step by step. *)
Lemma main_import cfg snap :
  list_ynab_ids_mode cfg = false ->
  main cfg snap =
  match resolve_inflows (snap_category_groups snap) (snap_categories snap) with
  | Raise e => (seed cfg, Raise e)
  | Ok inflows =>
      let '(s1, r) := import_loop (import_ctx cfg snap inflows) (snap_transactions snap) (seed cfg) in
      match r with
      | Ok _ => (mkSt (seen_transactions s1) (count s1) (out s1)
                   (logs s1 ++ [InfoImported (count s1)]), Ok tt)
      | Raise e => (s1, Raise e)
      end
  end.
Proof.
  intros Hmode. unfold main, main_body. rewrite Hmode.
  unfold bind, lift.
  destruct (resolve_inflows _ _) as [inflows|e]; [|reflexivity].
  destruct (import_loop _ _ _) as [s1 [[]|e]]; reflexivity.
Qed.

(* ------------------------------------------------------------------ *)
(** ** Claims on the deduplication and the import loop *)

(** C2: transfer-pair suppression.  Let [a] and [b] be the two legs of a
    transfer ([transfer_pair a b]; the relation is symmetric, so [a] may be
    either leg, whichever comes first).  If processing [a] imports it (the
    count goes up) and the run continues over any transactions [l], then
    any later transaction with the id of [a] or of [b] prints nothing and
    is not counted: neither leg is emitted twice. *)
Theorem transfer_pair_suppressed ctx (a b : Transaction) (l : list Transaction) (s s1 s2 : St) :
  transfer_pair a b -> t_id b <> "" ->
  process ctx a s = (s1, Ok tt) -> count s1 = count s + 1 ->
  loop ctx l s1 = (s2, Ok tt) ->
  forall c, t_id c = t_id a \/ t_id c = t_id b ->
  out (fst (process ctx c s2)) = out s2 /\ count (fst (process ctx c s2)) = count s2.
Proof.
  intros [Hab _] Hb Ha Hcount Hl c Hc.
  pose proof (process_imported_marks ctx a s) as [Hin1 Hin2];
    [rewrite Ha; simpl; lia|].
  rewrite Ha in Hin1, Hin2. simpl in Hin1, Hin2.
  specialize (Hin2 (t_id b)). rewrite Hab in Hin2.
  specialize (Hin2 (truthy_value_nonempty _ Hb)).
  pose proof (grows_loop ctx l s1) as Hg. rewrite Hl in Hg. simpl in Hg.
  assert (Hseen : t_id c ∈ seen_transactions s2).
  { destruct Hc as [-> | ->]; set_solver. }
  destruct (process_dup ctx c s2 (or_introl Hseen)) as (_&?&?). auto.
Qed.

Lemma transfer_pair_suppressed_witness :
  transfer_pair leg1 leg2 /\
  out (fst (process (sample_ctx ∅) leg2 (fst (process (sample_ctx ∅) leg1 (st0 ∅))))) =
    out (fst (process (sample_ctx ∅) leg1 (st0 ∅))) /\
  count (fst (process (sample_ctx ∅) leg2 (fst (process (sample_ctx ∅) leg1 (st0 ∅))))) =
    count (fst (process (sample_ctx ∅) leg1 (st0 ∅))).
Proof.
  split; [split; reflexivity|].
  apply (transfer_pair_suppressed (sample_ctx ∅) leg1 leg2 [] (st0 ∅)
           (fst (process (sample_ctx ∅) leg1 (st0 ∅)))
           (fst (process (sample_ctx ∅) leg1 (st0 ∅)))).
  - split; reflexivity.
  - discriminate.
  - vm_compute. reflexivity.
  - vm_compute. reflexivity.
  - reflexivity.
  - right. reflexivity.
Defined.

(** C3: idempotence.  In import mode, when the ids seeded from the ledger
    contain the id of every fetched transaction, the run prints no line,
    imports nothing, and (when it completes) reports [Imported 0 new
    transactions]. *)
Theorem rerun_imports_nothing (cfg : Config) (snap : Snapshot) :
  list_ynab_ids_mode cfg = false ->
  (forall t, In t (snap_transactions snap) ->
     t_id t ∈ get_existing_ynab_transaction_ids (beancount_entries cfg)) ->
  out (fst (main cfg snap)) = [] /\ count (fst (main cfg snap)) = 0 /\
  (snd (main cfg snap) = Ok tt -> last (logs (fst (main cfg snap))) = Some (InfoImported 0)).
Proof.
  intros Hmode Hall. rewrite (main_import cfg snap Hmode).
  destruct (resolve_inflows _ _) as [inflows|e]; [|simpl; repeat split; discriminate].
  unfold import_loop.
  pose proof (loop_all_seen (import_ctx cfg snap inflows)
                (List.filter eligible (snap_transactions snap)) (seed cfg)) as Hf.
  destruct (loop _ _ (seed cfg)) as [s1 [[]|e]]; simpl in Hf;
    (destruct Hf as (_&Hc&Ho);
     [intros t Ht; apply Hall; apply filter_In in Ht; tauto|]);
    simpl; rewrite Hc, Ho; repeat split; try discriminate.
  rewrite last_app. reflexivity.
Qed.

Lemma rerun_imports_nothing_witness :
  out (fst (main (sample_cfg [ledger_txn "t-1"; ledger_txn "t-2"]) (sample_snap [leg1; leg2]))) = [] /\
  count (fst (main (sample_cfg [ledger_txn "t-1"; ledger_txn "t-2"]) (sample_snap [leg1; leg2]))) = 0 /\
  (snd (main (sample_cfg [ledger_txn "t-1"; ledger_txn "t-2"]) (sample_snap [leg1; leg2])) = Ok tt ->
   last (logs (fst (main (sample_cfg [ledger_txn "t-1"; ledger_txn "t-2"]) (sample_snap [leg1; leg2]))))
   = Some (InfoImported 0)).
Proof.
  apply rerun_imports_nothing; [reflexivity|].
  intros t [<-|[<-|[]]]; vm_compute; set_solver.
Defined.

(** C4 (amended): a transaction whose own id, or whose transfer
    counterpart id, is already in the seen set is skipped: processing it
    prints no line, leaves the seen set and the import count unchanged; the
    state changes at most in its log records. *)
Theorem duplicate_skipped_no_output ctx t s :
  t_id t ∈ seen_transactions s \/ opt_mem (t_transfer_transaction_id t) (seen_transactions s) = true ->
  out (fst (process ctx t s)) = out s /\
  seen_transactions (fst (process ctx t s)) = seen_transactions s /\
  count (fst (process ctx t s)) = count s.
Proof.
  intros Hdup. destruct (process_dup ctx t s Hdup) as (?&?&?). auto.
Qed.

Lemma duplicate_skipped_no_output_witness :
  out (fst (process (sample_ctx ∅) pay_a (st0 {[ "t-a" ]}))) = out (st0 {[ "t-a" ]}) /\
  seen_transactions (fst (process (sample_ctx ∅) pay_a (st0 {[ "t-a" ]}))) =
    seen_transactions (st0 {[ "t-a" ]}) /\
  count (fst (process (sample_ctx ∅) pay_a (st0 {[ "t-a" ]}))) = count (st0 {[ "t-a" ]}).
Proof.
  apply (duplicate_skipped_no_output (sample_ctx ∅) pay_a (st0 {[ "t-a" ]})).
  left. simpl. set_solver.
Defined.

(** C4 (as stated, refuted): skipping a duplicate is not free of side
    effects: the script still calls [logging.debug('Skipping duplicate
    transaction: ...')], which reaches stderr under [--debug]. *)
Lemma duplicate_skip_logs :
  logs (fst (process (sample_ctx ∅) pay_a (st0 {[ "t-a" ]}))) =
  [DebugSkipDup "2026-01-02" (Some "Payee")].
Proof. vm_compute. reflexivity. Qed.

(** C5: the reconciliation filter.  A fetched transaction that is not
    [reconciled], or is deleted, can be removed from the snapshot without
    changing anything the run does (lines, count, seen set, logs, outcome),
    for every configuration. *)
Theorem unreconciled_or_deleted_ignored (cfg : Config) (snap : Snapshot)
    (l1 l2 : list Transaction) (t : Transaction) :
  t_cleared t <> "reconciled" \/ t_deleted t = true ->
  main cfg (with_transactions snap (l1 ++ t :: l2)) = main cfg (with_transactions snap (l1 ++ l2)).
Proof.
  intros Ht.
  assert (He : eligible t = false).
  { unfold eligible. destruct Ht as [Hc|Hd].
    - destruct (String.eqb_spec (t_cleared t) "reconciled"); [contradiction|reflexivity].
    - rewrite Hd. apply andb_false_r. }
  assert (Hf : List.filter eligible (l1 ++ t :: l2) = List.filter eligible (l1 ++ l2)).
  { rewrite !List.filter_app. simpl. rewrite He. reflexivity. }
  unfold main, main_body, import_loop. cbn [with_transactions snap_transactions].
  rewrite Hf. reflexivity.
Qed.

Lemma unreconciled_or_deleted_ignored_witness :
  (t_cleared pay_uncleared <> "reconciled" \/ t_deleted pay_uncleared = true) /\
  main (sample_cfg []) (with_transactions (sample_snap []) ([pay_a] ++ pay_uncleared :: [pay_b])) =
  main (sample_cfg []) (with_transactions (sample_snap []) ([pay_a] ++ [pay_b])).
Proof.
  split; [left; discriminate|].
  apply unreconciled_or_deleted_ignored. left. discriminate.
Defined.

(** C7 (as stated, refuted): swapping two unrelated purchases swaps their
    entries in the printed text, so the output is not order-independent.
    The order of a split transaction with a transfer subtransaction and of
    that transfer's other leg also changes the import count: when the other
    leg comes first, both are imported and the transfer is booked twice,
    the double import that the deduplication through [seen_transactions]
    (lines 405-408 and 416-417) is meant to prevent. *)
Lemma fetch_order_matters :
  out (fst (import_loop (sample_ctx ∅) [pay_a; pay_b] (st0 ∅))) <>
  out (fst (import_loop (sample_ctx ∅) [pay_b; pay_a] (st0 ∅))) /\
  count (fst (import_loop (sample_ctx ∅) [split_transfer; split_other_leg] (st0 ∅))) = 1 /\
  count (fst (import_loop (sample_ctx ∅) [split_other_leg; split_transfer] (st0 ∅))) = 2.
Proof.
  split; [|split]; [vm_compute; discriminate|vm_compute; reflexivity|vm_compute; reflexivity].
Qed.

(* ------------------------------------------------------------------ *)
(** ** Arithmetic of [from_milli] *)

Module DecimalFacts.
Import PyDecimal.

Lemma ndigits_aux_spec f c :
  0 <= c < 10 ^ Z.of_nat f ->
  1 <= ndigits_aux f c /\ c < 10 ^ ndigits_aux f c /\
  (1 <= c -> 10 ^ (ndigits_aux f c - 1) <= c).
Proof.
  revert c. induction f as [|f IH]; intros c Hc; simpl.
  - simpl in Hc. lia.
  - destruct (Z.ltb_spec c 10).
    + simpl. lia.
    + rewrite Nat2Z.inj_succ, Z.pow_succ_r in Hc by lia.
      assert (Hq : 0 <= c / 10 < 10 ^ Z.of_nat f).
      { split; [apply Z.div_pos; lia|]. apply Z.div_lt_upper_bound; lia. }
      destruct (IH (c / 10) Hq) as (H1 & H2 & H3).
      set (d := ndigits_aux f (c / 10)) in *.
      pose proof (Z.div_mod c 10 ltac:(lia)) as Hdm.
      pose proof (Z.mod_pos_bound c 10 ltac:(lia)) as Hmb.
      assert (Hq1 : 1 <= c / 10) by (apply Z.div_le_lower_bound; lia).
      specialize (H3 Hq1).
      replace (1 + d - 1) with (Z.succ (d - 1)) by lia.
      rewrite Z.pow_succ_r by lia.
      replace (10 ^ (1 + d)) with (10 * 10 ^ d) by (rewrite Z.pow_add_r by lia; reflexivity).
      set (q := c / 10) in *. set (r := c mod 10) in *.
      set (P := 10 ^ d) in *. set (P' := 10 ^ (d - 1)) in *.
      split; [lia|]. split; [lia|]. intros _. lia.
Qed.

Lemma ndigits_spec c :
  0 <= c ->
  1 <= ndigits c /\ c < 10 ^ ndigits c /\ (1 <= c -> 10 ^ (ndigits c - 1) <= c).
Proof.
  intros Hc. unfold ndigits. apply ndigits_aux_spec. split; [lia|].
  rewrite Nat2Z.inj_succ, Z2Nat.id by (apply Z.log2_nonneg).
  destruct (Z.eq_dec c 0) as [->|Hc0]; [simpl; lia|].
  apply Z.lt_le_trans with (2 ^ Z.succ (Z.log2 c)).
  - apply Z.log2_spec. lia.
  - apply Z.pow_le_mono_l. lia.
Qed.

Lemma ndigits_le c k : 1 <= k -> 0 <= c < 10 ^ k -> ndigits c <= k.
Proof.
  intros Hk Hc. destruct (ndigits_spec c ltac:(lia)) as (H1 & H2 & H3).
  destruct (Z.eq_dec c 0) as [->|Hc0].
  - change (ndigits 0) with 1. exact Hk.
  - specialize (H3 ltac:(lia)).
    assert (ndigits c - 1 < k); [|lia].
    apply (Z.pow_lt_mono_r_iff 10); lia.
Qed.

Lemma trim_spec f c e ideal :
  Z.of_nat f = ideal - e ->
  let '(c', e') := trim f c e ideal in
  c = c' * 10 ^ (e' - e) /\ e <= e' <= ideal /\ (e' = ideal \/ c' mod 10 <> 0).
Proof.
  revert c e. induction f as [|f IH]; intros c e Hf; simpl.
  - replace (e - e) with 0 by lia. simpl in Hf. lia.
  - destruct (Z.ltb_spec e ideal); [|lia]. simpl.
    destruct (Z.eqb_spec (c mod 10) 0) as [Hm|Hm].
    + specialize (IH (c / 10) (e + 1) ltac:(lia)).
      destruct (trim f (c / 10) (e + 1) ideal) as [c' e'].
      destruct IH as (Hc & He & Hend).
      split; [|split; [lia|exact Hend]].
      pose proof (Z.div_mod c 10 ltac:(lia)) as Hdm. rewrite Hm, Z.add_0_r in Hdm.
      rewrite Hdm, Hc.
      replace (e' - e) with (Z.succ (e' - (e + 1))) by lia.
      rewrite Z.pow_succ_r by lia. ring.
    + replace (e - e) with 0 by lia. rewrite Z.mul_1_r. lia.
Qed.

Lemma fix_noop s c e :
  0 < c < 10 ^ 28 -> Etiny <= e <= 0 -> fix_ (mkDec s c e) = Ok (mkDec s c e).
Proof.
  intros Hc He. pose proof (ndigits_le c 28 ltac:(lia) ltac:(lia)) as Hn.
  pose proof (ndigits_spec c ltac:(lia)) as (Hn1 & _ & _).
  unfold fix_. destruct (Z.eqb_spec c 0); [lia|].
  cbv [prec Etop Etiny Emax Emin] in *.
  destruct (Z.ltb_spec (999999 - 28 + 1) (ndigits c + e - 28)); [lia|].
  destruct (Z.ltb_spec (ndigits c + e - 28) (-999999 - 28 + 1)).
  - destruct (Z.ltb_spec e (-999999 - 28 + 1)); [lia|reflexivity].
  - destruct (Z.ltb_spec e (ndigits c + e - 28)); [lia|reflexivity].
Qed.

Lemma trim_arith (a c' A B : Z) :
  0 < a -> 0 <= A -> 0 <= B -> 3 <= A + B ->
  a * 10 ^ (A + B - 3) = c' * 10 ^ A -> (B = 0 \/ c' mod 10 <> 0) ->
  c' * 1000 = a * 10 ^ B /\ 0 < c' <= a.
Proof.
  intros Ha HA HB HAB Heq Hend.
  assert (HpA : 0 < 10 ^ A) by (apply Z.pow_pos_nonneg; lia).
  assert (Hval : c' * 1000 = a * 10 ^ B).
  { apply (Z.mul_reg_r _ _ (10 ^ A)); [lia|].
    transitivity (c' * 10 ^ A * 1000); [ring|]. rewrite <- Heq.
    transitivity (a * (10 ^ (A + B - 3) * 10 ^ 3)); [simpl; ring|].
    rewrite <- Z.pow_add_r by lia. rewrite <- Z.mul_assoc, <- Z.pow_add_r by lia.
    f_equal. f_equal. lia. }
  split; [exact Hval|].
  destruct (Z_le_gt_dec B 3) as [Hle|Hgt].
  - assert (Hp : 10 ^ 3 = 10 ^ (3 - B) * 10 ^ B)
      by (rewrite <- Z.pow_add_r by lia; f_equal; lia).
    assert (HpB : 0 < 10 ^ B) by (apply Z.pow_pos_nonneg; lia).
    assert (Hp3 : 1 <= 10 ^ (3 - B)).
    { change 1 with (Z.succ 0). apply Zlt_le_succ, Z.pow_pos_nonneg; lia. }
    assert (Hc : c' * 10 ^ (3 - B) = a).
    { apply (Z.mul_reg_r _ _ (10 ^ B)); [lia|].
      rewrite <- Z.mul_assoc, <- Hp. simpl (10 ^ 3). lia. }
    nia.
  - exfalso. destruct Hend as [Hend|Hend]; [lia|]. apply Hend.
    assert (Hp : 10 ^ B = 10 * (10 ^ (B - 4) * 1000))
      by (rewrite Z.mul_assoc; change 1000 with (10 ^ 3);
          rewrite <- Z.pow_succ_r, <- Z.pow_add_r by lia; f_equal; lia).
    assert (Hc : c' = a * 10 ^ (B - 4) * 10).
    { apply (Z.mul_reg_r _ _ 1000); [lia|]. rewrite Hval, Hp. ring. }
    rewrite Hc. apply Z.mod_mul. lia.
Qed.

Lemma div_eucl_exact n m q : 0 < m -> n = q * m -> Z.div_eucl n m = (q, 0).
Proof.
  intros Hm ->. pose proof (Z.div_mul q m ltac:(lia)) as Hd.
  pose proof (Z.mod_mul q m ltac:(lia)) as Hr.
  unfold Z.div, Z.modulo in *. destruct (Z.div_eucl (q * m) m). simpl in *. congruence.
Qed.

(** For an amount of at most 28 digits the quotient is exact. *)
Lemma from_milli_exact x :
  Z.abs x < 10 ^ 28 ->
  exists c e, from_milli x = Ok (mkDec (x <? 0) c e) /\ 0 <= c < 10 ^ 28 /\
    Etiny <= e <= 0 /\ (x <> 0 -> 0 < c) /\ c * 1000 = Z.abs x * 10 ^ (- e).
Proof.
  intros Hx. destruct (Z.eq_dec x 0) as [->|Hx0].
  { exists 0, 0. split; [vm_compute; reflexivity|]. cbv [Etiny Emin prec]. lia. }
  unfold from_milli, div, of_Z. cbn [dsign dcoef dexp].
  change (Z.abs 1000 =? 0) with false. change (ndigits (Z.abs 1000)) with 4.
  change (1000 <? 0) with false. rewrite xorb_false_r. cbv iota.
  destruct (Z.eqb_spec (Z.abs x) 0); [lia|].
  set (a := Z.abs x) in *.
  pose proof (ndigits_le a 28 ltac:(lia) ltac:(lia)) as Hn.
  pose proof (ndigits_spec a ltac:(lia)) as (Hn1 & _ & _).
  cbv [prec].
  set (shift := 4 - ndigits a + 28 + 1).
  destruct (Z.leb_spec 0 shift); [|lia].
  change (Z.abs 1000) with 1000.
  rewrite (div_eucl_exact (a * 10 ^ shift) 1000 (a * 10 ^ (shift - 3))); [|lia|].
  2:{ change 1000 with (10 ^ 3). rewrite <- Z.mul_assoc, <- Z.pow_add_r by lia.
      do 2 f_equal. lia. }
  change (negb (0 =? 0)) with false. cbv iota beta zeta.
  replace (0 - 0 - shift) with (- shift) by lia. replace (0 - 0) with 0 by lia.
  pose proof (trim_spec (Z.to_nat (0 - - shift)) (a * 10 ^ (shift - 3)) (- shift) 0) as Ht.
  destruct (trim _ _ _ _) as [c' e'].
  specialize (Ht ltac:(rewrite Z2Nat.id; lia)).
  destruct Ht as (Hc & He & Hend).
  destruct (trim_arith a c' (e' - - shift) (- e')) as [Hval Hb]; try lia.
  { replace (e' - - shift + - e' - 3) with (shift - 3) by lia. exact Hc. }
  exists c', e'.
  rewrite fix_noop; [|lia|cbv [Etiny Emin prec]; lia].
  split; [reflexivity|]. cbv [Etiny Emin prec]. lia.
Qed.

(** Negation only flips the sign of a coefficient already in range. *)
Lemma neg_exact s c e :
  0 <= c < 10 ^ 28 -> Etiny <= e <= 0 ->
  neg (mkDec s c e) = Ok (mkDec (if c =? 0 then false else negb s) c e).
Proof.
  intros Hc He. unfold neg. destruct (Z.eqb_spec c 0) as [->|Hc0].
  - simpl. do 3 f_equal. cbv [Etiny Emin Emax prec] in *. lia.
  - apply fix_noop; lia.
Qed.

(** The denotation of the negated quotient is [-(x/1000)]. *)
Lemma value_neg_milli x c e :
  0 <= c -> e <= 0 -> (x <> 0 -> 0 < c) -> c * 1000 = Z.abs x * 10 ^ (- e) ->
  Qeq (value (mkDec (if c =? 0 then false else negb (x <? 0)) c e)) (- (x # 1000)).
Proof.
  intros Hc He Hpos Hval. unfold value.
  assert (Hp : 0 < 10 ^ (- e)) by (apply Z.pow_pos_nonneg; lia).
  assert (Hm : (if (if c =? 0 then false else negb (x <? 0)) then - c else c) * 1000
               = - x * 10 ^ (- e)).
  { destruct (Z.eqb_spec c 0) as [->|Hc0].
    - destruct (Z.eq_dec x 0) as [->|]; [lia|]. specialize (Hpos ltac:(assumption)). lia.
    - destruct (Z.ltb_spec x 0); simpl; lia. }
  destruct (Z.leb_spec 0 e).
  - assert (e = 0) as -> by lia. simpl in Hm |- *.
    unfold Qeq, Qopp, inject_Z; simpl. lia.
  - unfold Qeq, Qopp; simpl. rewrite Z2Pos.id by lia. lia.
Qed.

End DecimalFacts.

(** [get_target_account] prints nothing. *)
Lemma out_get_target_account ctx p m c a i adj s :
  out (fst (get_target_account ctx p m c a i adj s)) = out s.
Proof.
  unfold get_target_account, bind, lift, ret, log.
  repeat case_match; simplify_eq; reflexivity.
Qed.

(** C6 counterexample: a subtransaction of 10^28 + 1 milliunits is rendered
    as -10^25: the default Decimal context keeps 28 significant digits, so
    the quotient is rounded and the posting is not -(x/1000). *)
Lemma sub_posting_rounded :
  out (fst (emit_subtransactions (sample_ctx ∅)
              [mkSubtransaction "s-big" (10 ^ 28 + 1) None None None (Some "a-savings") None]
              (st0 ∅))) =
    [LSubPosting "Assets:Savings" (PyDecimal.mkDec true (10 ^ 27) (-2)) "USD" None] /\
  ~ Qeq (PyDecimal.value (PyDecimal.mkDec true (10 ^ 27) (-2))) (- ((10 ^ 28 + 1) # 1000)).
Proof.
  split; [vm_compute; reflexivity|].
  intros H. vm_compute in H. discriminate.
Qed.

(** C1: an identifier of the Account Mapping Table resolves to its mapped
    path, whether it also names an account, is the inflows category or
    names another category.  [to_bean] computes the default before the
    lookup, so this holds on remote data in which every category's group is
    listed and the inflows category exists (which the inflows resolution
    guarantees). *)
Theorem to_bean_mapping_wins ctx id p :
  account_mapping ctx !! id = Some p ->
  map_Forall (fun _ c => is_Some (ynab_category_groups ctx !! category_group_id c))
    (ynab_categories ctx) ->
  is_Some (ynab_categories ctx !! inflows_category_id ctx) ->
  to_bean ctx id = Ok p.
Proof.
  intros Hmap Hgroups Hinfl. unfold to_bean.
  assert (Hfmt : forall k, is_Some (ynab_categories ctx !! k) ->
            exists n, fmt_ynab_category k (ynab_category_groups ctx) (ynab_categories ctx) = Ok n).
  { intros k [c Hc]. unfold fmt_ynab_category. rewrite Hc.
    destruct (Hgroups k c Hc) as [g Hg]. rewrite Hg. eauto. }
  destruct (ynab_accounts ctx !! id); simpl; [now rewrite Hmap|].
  destruct (String.eqb_spec id (inflows_category_id ctx)) as [->|].
  - destruct (Hfmt _ Hinfl) as [nm ->]. simpl. now rewrite Hmap.
  - case_bool_decide as Hcat.
    + destruct (Hfmt _ Hcat) as [nm ->]. simpl. now rewrite Hmap.
    + simpl. now rewrite Hmap.
Qed.

Lemma to_bean_mapping_wins_witness :
  to_bean (sample_ctx (<[ "c-inflows" := "Income:Salary" ]> ∅)) "c-inflows" = Ok "Income:Salary".
Proof.
  apply to_bean_mapping_wins.
  - reflexivity.
  - apply (bool_decide_unpack _). vm_compute. reflexivity.
  - exists c_inflows. reflexivity.
Defined.

Lemma resolve_inflows_fails groups categories :
  (forall c, ~ inflows_unique groups categories c) ->
  resolve_inflows groups categories = Raise AssertionError.
Proof.
  intros H. unfold resolve_inflows.
  destruct (List.filter _ (map snd (map_to_list groups))) as [|g [|g' r]] eqn:Hg;
    simpl; try reflexivity.
  destruct (List.filter _ (map snd (map_to_list categories))) as [|c [|c' r]] eqn:Hc;
    simpl; try reflexivity.
  exfalso. apply (H c). exists g. split; assumption.
Qed.

(** C8: in import mode, unless the groups contain exactly one
    Internal-Master-Category and it owns exactly one Inflows category, the
    run stops with the [AssertionError] of the resolution asserts in the
    state it started from: nothing printed, nothing counted. *)
Theorem inflows_resolution_fatal cfg snap :
  list_ynab_ids_mode cfg = false ->
  (forall c, ~ inflows_unique (snap_category_groups snap) (snap_categories snap) c) ->
  main cfg snap = (seed cfg, Raise AssertionError).
Proof.
  intros Hmode Hu. unfold main, main_body. rewrite Hmode.
  unfold bind at 1, lift. rewrite (resolve_inflows_fails _ _ Hu). reflexivity.
Qed.

(** A budget with two master groups, the second one empty. *)
Lemma inflows_resolution_fatal_witness :
  let snap := mkSnapshot (mkBudget "b-1" "My Budget" "USD") sample_accounts
                (<[ "g-imc2" := mkCategoryGroup "g-imc2" "Internal-Master-Category" ]> sample_groups)
                sample_categories [pay_a] in
  list_ynab_ids_mode (sample_cfg []) = false /\
  (forall c, ~ inflows_unique (snap_category_groups snap) (snap_categories snap) c) /\
  main (sample_cfg []) snap = (seed (sample_cfg []), Raise AssertionError).
Proof.
  intros snap.
  assert (Hu : forall c, ~ inflows_unique (snap_category_groups snap) (snap_categories snap) c).
  { intros c [g [Hg _]]. vm_compute in Hg. inversion Hg. }
  split; [reflexivity|]. split; [exact Hu|].
  apply inflows_resolution_fatal; [reflexivity|exact Hu].
Defined.

(** *** Listing mode *)

Lemma ltb_asym x y : String.ltb x y = true -> String.ltb y x = false.
Proof.
  unfold String.ltb. rewrite (String.compare_antisym y x).
  destruct (String.compare x y); simpl; congruence.
Qed.

Lemma ltb_irrefl x : String.ltb x x = false.
Proof.
  destruct (String.ltb x x) eqn:E; [|reflexivity].
  pose proof (ltb_asym _ _ E). congruence.
Qed.

(** One step of a lexicographic comparison is asymmetric when the rest is. *)
Lemma lex_asym x y (r r' : bool) :
  (r = true -> r' = false) ->
  (String.ltb x y || String.eqb x y && r) = true ->
  (String.ltb y x || String.eqb y x && r') = false.
Proof.
  intros Hr H. apply orb_true_iff in H. apply orb_false_iff. destruct H as [H|H].
  - split; [now apply ltb_asym|]. apply andb_false_iff. left.
    apply String.eqb_neq. intros ->. rewrite ltb_irrefl in H. discriminate.
  - apply andb_true_iff in H as [H1 H2]. apply String.eqb_eq in H1. subst y.
    split; [apply ltb_irrefl|]. apply andb_false_iff. right. now apply Hr.
Qed.

Lemma account_lt_asym a b : account_lt a b = true -> account_lt b a = false.
Proof. apply lex_asym, ltb_asym. Qed.

Lemma category_lt_asym a b : category_lt a b = true -> category_lt b a = false.
Proof. apply lex_asym, lex_asym, ltb_asym. Qed.

Lemma insert_by_perm {A} (lt : A -> A -> bool) x l : insert_by lt x l ≡ₚ x :: l.
Proof.
  induction l as [|y l IH]; simpl; [reflexivity|].
  destruct (lt x y); [reflexivity|]. rewrite IH. apply perm_swap.
Qed.

Lemma sort_by_perm {A} (lt : A -> A -> bool) l : sort_by lt l ≡ₚ l.
Proof.
  unfold sort_by.
  assert (H : forall acc, fold_left (fun acc x => insert_by lt x acc) l acc ≡ₚ l ++ acc).
  { induction l as [|x l IH]; intros acc; simpl; [reflexivity|].
    rewrite IH, insert_by_perm. symmetry. apply Permutation_middle. }
  rewrite H, app_nil_r. reflexivity.
Qed.

Section Sorting.
Context {A : Type} (lt : A -> A -> bool).
Hypothesis lt_asym : forall x y, lt x y = true -> lt y x = false.
Let R (u v : A) : Prop := lt v u = false.

Lemma insert_by_hd a x l : HdRel R a l -> R a x -> HdRel R a (insert_by lt x l).
Proof.
  destruct l as [|y l]; simpl; intros H Hx; [constructor; exact Hx|].
  destruct (lt x y); constructor; [exact Hx|]. inversion H; assumption.
Qed.

Lemma insert_by_sorted x l : Sorted R l -> Sorted R (insert_by lt x l).
Proof.
  induction 1 as [|y l Hs IH Hd]; simpl; [repeat constructor|].
  destruct (lt x y) eqn:E.
  - constructor; [constructor; assumption|]. constructor. unfold R. now apply lt_asym.
  - constructor; [exact IH|]. apply insert_by_hd; assumption.
Qed.

Lemma sort_by_sorted l : Sorted R (sort_by lt l).
Proof.
  unfold sort_by.
  assert (H : forall acc, Sorted R acc ->
            Sorted R (fold_left (fun acc x => insert_by lt x acc) l acc)).
  { induction l as [|x l IH]; intros acc Hacc; simpl; [exact Hacc|].
    apply IH, insert_by_sorted, Hacc. }
  apply H. constructor.
Qed.
End Sorting.

Lemma Sorted_weaken {A} (R R' : A -> A -> Prop) (P : A -> Prop) l :
  Sorted R l -> Forall P l -> (forall x y, P x -> P y -> R x y -> R' x y) -> Sorted R' l.
Proof.
  induction 1 as [|x l Hs IH Hd]; intros HP HR; [constructor|].
  inversion HP as [|? ? Hx HPl]; subst. constructor; [apply IH; assumption|].
  destruct Hd as [|y l' Hxy]; constructor. inversion HPl; subst. apply HR; assumption.
Qed.

Lemma Forall_perm {A} (P : A -> Prop) l l' : l ≡ₚ l' -> Forall P l' -> Forall P l.
Proof.
  rewrite !List.Forall_forall. intros Hp H x Hx. apply H. eapply Permutation_in; eauto.
Qed.

Lemma Forall2_with_l {A B} (P : A -> Prop) (R : A -> B -> Prop) l l' :
  Forall P l -> Forall2 R l l' -> Forall2 (fun x y => P x /\ R x y) l l'.
Proof.
  intros HP HR. induction HR as [|x y l l' Hxy HR IH]; constructor.
  - inversion HP; split; assumption.
  - inversion HP; apply IH; assumption.
Qed.

Lemma in_sorted_map_to_list {A} (lt : string * A -> string * A -> bool) (m : gmap string A) k x :
  In (k, x) (sort_by lt (map_to_list m)) -> m !! k = Some x.
Proof.
  intros Hin. apply (Permutation_in _ (sort_by_perm lt _)) in Hin.
  rewrite <- list_elem_of_In, elem_of_map_to_list in Hin. exact Hin.
Qed.

Lemma pretty_print_items_run {A} am (fmt : A -> res string) items s :
  Forall (fun kv => exists n, fmt kv.2 = Ok n) items ->
  exists ls,
    Forall2 (fun kv l => exists n, fmt kv.2 = Ok n /\
               l = [LListIdPart kv.1; LListName n;
                    LListMapping (match am !! kv.1 with Some b => b | None => "(none)" end)])
      items ls /\
    pretty_print_items am fmt items s =
      (mkSt (seen_transactions s) (count s) (out s ++ concat ls) (logs s), Ok tt).
Proof.
  intros Hf. revert s. induction Hf as [|kv items [n Hn] Hf IH]; intros s.
  - exists []. split; [constructor|]. simpl. unfold ret. rewrite app_nil_r.
    destruct s; reflexivity.
  - cbn [pretty_print_items].
    rewrite (bind_ok (print _) _ s _ tt) by reflexivity.
    rewrite (bind_ok (lift (fmt kv.2)) _ _ _ n) by (unfold lift; rewrite Hn; reflexivity).
    rewrite (bind_ok (print _) _ _ _ tt) by reflexivity.
    rewrite (bind_ok (print _) _ _ _ tt) by reflexivity.
    edestruct IH as [ls [Hls Hrun]]. rewrite Hrun.
    exists ([LListIdPart kv.1; LListName n;
             LListMapping (match am !! kv.1 with Some b => b | None => "(none)" end)] :: ls).
    split; [constructor; [eauto|exact Hls]|].
    simpl. rewrite <- !app_assoc. reflexivity.
Qed.

(** C9 (code bug: sorted by id, not by resolved name): on maps in which every record is stored under its own id
    and every category's group is listed (as [accounts_from_json] and
    [categories_from_json] build them from consistent data), listing mode
    prints the accounts, then the categories; each section lists every id of
    its map once, as its id, its name ([Group:Category] for a category) and
    its mapped ledger account or [(none)], in increasing order of id, which
    is what sorting the records by [x[1]] amounts to: [x] is an (id, record)
    pair and the record's first field is its id, so the intended sort by name
    does not happen. *)
Theorem list_ynab_ids_listing am accounts groups categories s :
  map_Forall (fun k a => acc_id a = k) accounts ->
  map_Forall (fun k c => cat_id c = k /\ is_Some (groups !! category_group_id c)) categories ->
  exists sa sc la lc,
    list_ynab_ids am accounts groups categories s =
      (mkSt (seen_transactions s) (count s) (out s ++ concat la ++ concat lc) (logs s), Ok tt) /\
    sa ≡ₚ map_to_list accounts /\ sc ≡ₚ map_to_list categories /\
    Sorted (fun x y => String.ltb y.1 x.1 = false) sa /\
    Sorted (fun x y => String.ltb y.1 x.1 = false) sc /\
    Forall2 (fun kv l =>
               l = [LListIdPart kv.1; LListName (acc_name kv.2);
                    LListMapping (match am !! kv.1 with Some b => b | None => "(none)" end)])
      sa la /\
    Forall2 (fun kv l => exists g, groups !! category_group_id kv.2 = Some g /\
               l = [LListIdPart kv.1; LListName (grp_name g ++ ":" ++ cat_name kv.2)%string;
                    LListMapping (match am !! kv.1 with Some b => b | None => "(none)" end)])
      sc lc.
Proof.
  intros Hacc Hcat. unfold list_ynab_ids, pretty_print.
  set (sa := sort_by (fun x y : string * Account => account_lt x.2 y.2) (map_to_list accounts)).
  set (sc := sort_by (fun x y : string * Category => category_lt x.2 y.2) (map_to_list categories)).
  assert (HFa : Forall (fun kv => acc_id kv.2 = kv.1) sa).
  { apply List.Forall_forall. intros [k a] Hin. apply in_sorted_map_to_list in Hin.
    exact (Hacc k a Hin). }
  assert (HFc : Forall (fun kv => categories !! kv.1 = Some kv.2 /\ cat_id kv.2 = kv.1 /\
                                  is_Some (groups !! category_group_id kv.2)) sc).
  { apply List.Forall_forall. intros [k c] Hin. apply in_sorted_map_to_list in Hin.
    destruct (Hcat k c Hin). auto. }
  destruct (pretty_print_items_run am (fun x => Ok (acc_name x)) sa s) as [la [Hla Hruna]].
  { apply List.Forall_forall. eauto. }
  edestruct (pretty_print_items_run am (fun x => fmt_ynab_category (cat_id x) groups categories) sc)
    as [lc [Hlc Hrunc]].
  { eapply Forall_impl; [exact HFc|]. intros [k c] (Hk & Hid & [g Hg]); simpl in *.
    unfold fmt_ynab_category. rewrite Hid, Hk, Hg. eauto. }
  exists sa, sc, la, lc. split; [|split; [apply sort_by_perm|split; [apply sort_by_perm|]]].
  { rewrite (bind_ok _ _ _ _ _ Hruna). rewrite Hrunc. simpl. rewrite app_assoc. reflexivity. }
  split.
  { eapply Sorted_weaken; [apply sort_by_sorted|exact HFa|].
    - intros x y. apply account_lt_asym.
    - intros x y Hx Hy H. simpl in H. unfold account_lt in H.
      apply orb_false_iff in H as [H _]. rewrite Hx, Hy in H. exact H. }
  split.
  { eapply Sorted_weaken; [apply sort_by_sorted|exact HFc|].
    - intros x y. apply category_lt_asym.
    - intros x y (_ & Hx & _) (_ & Hy & _) H. simpl in H. unfold category_lt in H.
      apply orb_false_iff in H as [H _]. rewrite Hx, Hy in H. exact H. }
  split.
  { eapply Forall2_impl; [exact Hla|]. intros kv l [n [Hn ->]]. injection Hn as <-. reflexivity. }
  { eapply Forall2_impl; [exact (Forall2_with_l _ _ _ _ HFc Hlc)|].
    intros [k c] l ((Hk & Hid & [g Hg]) & [n [Hn ->]]). simpl in *.
    unfold fmt_ynab_category in Hn. rewrite Hid, Hk, Hg in Hn. injection Hn as <-. eauto. }
Qed.

Lemma list_ynab_ids_listing_witness :
  map_Forall (fun k a => acc_id a = k) sample_accounts /\
  map_Forall (fun k c => cat_id c = k /\ is_Some (sample_groups !! category_group_id c))
    sample_categories /\
  exists sa sc la lc,
    list_ynab_ids (<[ "a-checking" := "Assets:Bank" ]> ∅) sample_accounts sample_groups
      sample_categories (st0 ∅) =
      (mkSt (seen_transactions (st0 ∅)) (count (st0 ∅))
         (out (st0 ∅) ++ concat la ++ concat lc) (logs (st0 ∅)), Ok tt) /\
    sa ≡ₚ map_to_list sample_accounts /\ sc ≡ₚ map_to_list sample_categories /\
    Sorted (fun x y => String.ltb y.1 x.1 = false) sa /\
    Sorted (fun x y => String.ltb y.1 x.1 = false) sc /\
    Forall2 (fun kv l =>
               l = [LListIdPart kv.1; LListName (acc_name kv.2);
                    LListMapping (match (<[ "a-checking" := "Assets:Bank" ]> ∅ : gmap string string) !! kv.1
                                  with Some b => b | None => "(none)" end)])
      sa la /\
    Forall2 (fun kv l => exists g, sample_groups !! category_group_id kv.2 = Some g /\
               l = [LListIdPart kv.1; LListName (grp_name g ++ ":" ++ cat_name kv.2)%string;
                    LListMapping (match (<[ "a-checking" := "Assets:Bank" ]> ∅ : gmap string string) !! kv.1
                                  with Some b => b | None => "(none)" end)])
      sc lc.
Proof.
  assert (Ha : map_Forall (fun k a => acc_id a = k) sample_accounts).
  { apply (bool_decide_unpack _). vm_compute. reflexivity. }
  assert (Hc : map_Forall (fun k c => cat_id c = k /\ is_Some (sample_groups !! category_group_id c))
                 sample_categories).
  { apply (bool_decide_unpack _). vm_compute. reflexivity. }
  split; [exact Ha|]. split; [exact Hc|].
  apply list_ynab_ids_listing; assumption.
Defined.

(** C9 counterexample: two accounts whose ids and names are in opposite
    orders are listed by id, so the name [Zeta] is printed before [Alpha]. *)
Lemma list_ynab_ids_not_by_name :
  out (fst (list_ynab_ids ∅
              (<[ "a-1" := mkAccount "a-1" "Zeta" ]> (<[ "a-2" := mkAccount "a-2" "Alpha" ]> ∅))
              ∅ ∅ (st0 ∅))) =
    [LListIdPart "a-1"; LListName "Zeta"; LListMapping "(none)";
     LListIdPart "a-2"; LListName "Alpha"; LListMapping "(none)"] /\
  String.ltb "Alpha" "Zeta" = true.
Proof. split; vm_compute; reflexivity. Qed.

(** C10: with exactly one budget, [budget_from_json] raises (the
    [AttributeError] of [list.values()]) whatever the budget name argument;
    it returns a budget only when there are at least two budgets, a
    non-empty name is given and exactly one budget has that name. *)
Theorem budget_from_json_single_raises :
  (forall (name : option string) (b : Budget),
      budget_from_json name [b] = Raise AttributeError) /\
  (forall (name : option string) (l : list Budget) (b : Budget),
      budget_from_json name l = Ok b ->
      (2 <= length l)%nat /\
      exists n, truthy_value name = Some n /\
                List.filter (fun a => String.eqb (b_name a) n) l = [b]).
Proof.
  split; [reflexivity|].
  intros name l b. unfold budget_from_json.
  destruct (Nat.ltb_spec 1 (length l)) as [Hl|Hl]; [|discriminate].
  destruct (truthy_value name) as [n|]; [|discriminate].
  destruct (List.filter _ l) as [|b' [|b'' r]] eqn:Hf; try discriminate.
  intros [= ->]. split; [lia|]. eauto.
Qed.

Lemma budget_from_json_single_raises_witness :
  budget_from_json (Some "My Budget") [mkBudget "b-1" "My Budget" "USD"] = Raise AttributeError /\
  ((2 <= length [mkBudget "b-1" "My Budget" "USD"; mkBudget "b-2" "Other" "EUR"])%nat /\
   exists n, truthy_value (Some "My Budget") = Some n /\
     List.filter (fun a => String.eqb (b_name a) n)
       [mkBudget "b-1" "My Budget" "USD"; mkBudget "b-2" "Other" "EUR"] =
       [mkBudget "b-1" "My Budget" "USD"]).
Proof.
  split.
  - apply (proj1 budget_from_json_single_raises).
  - apply (proj2 budget_from_json_single_raises (Some "My Budget")). vm_compute. reflexivity.
Defined.

(* ------------------------------------------------------------------ *)
(** ** Further properties of the script *)

(** *** [ynab_normalize] *)

Lemma ynab_normalize_length name :
  (String.length (ynab_normalize name) <= String.length name)%nat.
Proof.
  induction name as [|c rest IH]; simpl; [lia|].
  destruct (is_punctuation c); [lia|]. destruct (Ascii.eqb c " "%char); simpl; lia.
Qed.

(** X1: a normalised name contains no space, and its only punctuation
    character is the [-] that replaces each space. *)
Theorem ynab_normalize_clean name c :
  In c (list_ascii_of_string (ynab_normalize name)) ->
  c <> " "%char /\ (is_punctuation c = false \/ c = "-"%char).
Proof.
  induction name as [|a rest IH]; simpl; [tauto|].
  destruct (is_punctuation a) eqn:P; [exact IH|].
  destruct (Ascii.eqb_spec a " "%char) as [->|Hsp]; simpl.
  - intros [<-|H]; [split; [discriminate|right; reflexivity]|auto].
  - intros [<-|H]; [split; [exact Hsp|left; exact P]|auto].
Qed.

Lemma ynab_normalize_clean_witness :
  In "-"%char (list_ascii_of_string (ynab_normalize "Internal Master Category")) /\
  "-"%char <> " "%char /\ (is_punctuation "-"%char = false \/ "-"%char = "-"%char).
Proof.
  split; [vm_compute; tauto|].
  apply (ynab_normalize_clean "Internal Master Category"). vm_compute. tauto.
Defined.

(** X2: [ynab_normalize] leaves exactly the names without punctuation and
    spaces unchanged.  (So it is not idempotent: the [-] it writes for a
    space is punctuation, and a second pass deletes it.) *)
Theorem ynab_normalize_fixed name :
  ynab_normalize name = name <->
  Forall (fun c => is_punctuation c = false /\ c <> " "%char) (list_ascii_of_string name).
Proof.
  split.
  - induction name as [|c rest IH]; simpl; intros H; [constructor|].
    destruct (is_punctuation c) eqn:P.
    + exfalso. pose proof (ynab_normalize_length rest) as Hl.
      rewrite H in Hl. simpl in Hl. lia.
    + destruct (Ascii.eqb_spec c " "%char) as [->|Hsp].
      * discriminate H.
      * injection H as H. constructor; [split; assumption|exact (IH H)].
  - induction name as [|c rest IH]; simpl; intros H; [reflexivity|].
    inversion H as [|? ? [P Hsp] Hrest]; subst. rewrite P.
    destruct (Ascii.eqb_spec c " "%char); [contradiction|]. rewrite (IH Hrest). reflexivity.
Qed.

(** *** [NegateAction] *)

(** X3: [--disable-...] sets its flag to [False], [--enable-...] to [True]. *)
Theorem NegateAction_prefix suffix :
  NegateAction ("--disable" ++ suffix) = false /\ NegateAction ("--enable" ++ suffix) = true.
Proof.
  unfold NegateAction. destruct suffix as [|c1 s]; split; reflexivity.
Qed.

(** *** The JSON converters *)

Lemma fold_insert_lookup {A B} (key : A -> string) (mk : A -> B) l (m : gmap string B) k b :
  fold_left (fun r a => <[ key a := mk a ]> r) l m !! k = Some b ->
  m !! k = Some b \/ exists a, In a l /\ key a = k /\ b = mk a.
Proof.
  revert m. induction l as [|a l IH]; intros m H; simpl in H; [auto|].
  destruct (IH _ H) as [Hm|(a' & Hin & Hk & Hb)].
  - destruct (decide (key a = k)) as [Hk|Hne].
    + subst k. rewrite lookup_insert_eq in Hm. injection Hm as <-.
      right. exists a. simpl. auto.
    + rewrite lookup_insert_ne in Hm by congruence. auto.
  - right. exists a'. simpl. auto.
Qed.

Lemma fold_insert_dom {A B} (key : A -> string) (mk : A -> B) l (m : gmap string B) k :
  is_Some (fold_left (fun r a => <[ key a := mk a ]> r) l m !! k) <->
  is_Some (m !! k) \/ In k (map key l).
Proof.
  revert m. induction l as [|a l IH]; intros m; simpl; [tauto|].
  rewrite IH. destruct (decide (key a = k)) as [<-|Hne].
  - rewrite lookup_insert_eq. split; [intros _; right; left; reflexivity|intros _; left; eauto].
  - rewrite lookup_insert_ne by congruence. intuition.
Qed.

Lemma fold_insert_skip {A B} (key : A -> string) (mk : A -> B) l (m : gmap string B) k :
  ~ In k (map key l) ->
  fold_left (fun r x => <[ key x := mk x ]> r) l m !! k = m !! k.
Proof.
  revert m. induction l as [|a l IH]; intros m Hk; [reflexivity|].
  simpl in Hk |- *. rewrite IH by tauto. apply lookup_insert_ne. intros Heq. apply Hk. left. exact Heq.
Qed.

Lemma fold_insert_last {A B} (key : A -> string) (mk : A -> B) pre a post (m : gmap string B) :
  ~ In (key a) (map key post) ->
  fold_left (fun r x => <[ key x := mk x ]> r) (pre ++ a :: post) m !! key a = Some (mk a).
Proof.
  intros Hpost. rewrite fold_left_app. simpl. rewrite fold_insert_skip by exact Hpost.
  apply lookup_insert_eq.
Qed.

(** X4: [accounts_from_json] has a key for each account id of the JSON and
    nothing else; each record is stored under its own id with the
    normalised name of an account of that id; of two accounts with the same
    id, the last one in the list is kept, wherever it stands. *)
Theorem accounts_from_json_spec json :
  (forall k, is_Some (accounts_from_json json !! k) <-> In k (map acc_id json)) /\
  map_Forall (fun k a => acc_id a = k /\
                exists j, In j json /\ acc_id j = k /\ acc_name a = ynab_normalize (acc_name j))
    (accounts_from_json json) /\
  (forall pre j post, json = pre ++ j :: post -> ~ In (acc_id j) (map acc_id post) ->
     accounts_from_json json !! acc_id j =
       Some (mkAccount (acc_id j) (ynab_normalize (acc_name j)))).
Proof.
  unfold accounts_from_json. cbn [acc_id].
  split; [|split].
  - intros k. rewrite (fold_insert_dom acc_id (fun a => mkAccount (acc_id a) (ynab_normalize (acc_name a)))).
    rewrite lookup_empty. split; [intros [[? ?]|H]; [discriminate|exact H]|auto].
  - intros k a H.
    destruct (fold_insert_lookup acc_id (fun a => mkAccount (acc_id a) (ynab_normalize (acc_name a)))
                _ _ _ _ H) as [H0|(j & Hin & Hk & ->)]; [rewrite lookup_empty in H0; discriminate|].
    simpl. split; [exact Hk|]. eauto.
  - intros pre j post -> Hpost.
    apply (fold_insert_last acc_id (fun a => mkAccount (acc_id a) (ynab_normalize (acc_name a))));
      exact Hpost.
Qed.

Lemma categories_inner_wf (G : gmap string CategoryGroup) cs (C : gmap string Category) gid :
  is_Some (G !! gid) -> Forall (fun c => category_group_id c = gid) cs ->
  map_Forall (fun k c => cat_id c = k /\ is_Some (G !! category_group_id c)) C ->
  map_Forall (fun k c => cat_id c = k /\ is_Some (G !! category_group_id c))
    (fold_left (fun (category_result : gmap string Category) c =>
        let category := mkCategory (cat_id c) (ynab_normalize (cat_name c)) (category_group_id c) in
        <[ cat_id category := category ]> category_result) cs C).
Proof.
  intros Hg. revert C. induction cs as [|c cs IH]; intros C Hcs HC; simpl; [exact HC|].
  apply Forall_cons in Hcs as [Hc Hcs'].
  apply IH; [exact Hcs'|]. apply map_Forall_insert_2; [|exact HC].
  simpl. rewrite Hc. split; [reflexivity|exact Hg].
Qed.

Lemma categories_from_json_wf_gen json :
  Forall (fun g => Forall (fun c => category_group_id c = jg_id g) (jg_categories g)) json ->
  map_Forall (fun k g => grp_id g = k) (categories_from_json json).1 /\
  map_Forall (fun k c => cat_id c = k /\
                is_Some ((categories_from_json json).1 !! category_group_id c))
    (categories_from_json json).2.
Proof.
  intros Hjson. unfold categories_from_json.
  assert (H : forall p : gmap string CategoryGroup * gmap string Category,
                map_Forall (fun k g => grp_id g = k) p.1 /\
                map_Forall (fun k c => cat_id c = k /\ is_Some (p.1 !! category_group_id c)) p.2 ->
              let p' := fold_left (fun '(group_result, category_result) g =>
    let group := mkCategoryGroup (jg_id g) (ynab_normalize (jg_name g)) in
    let group_result := <[ grp_id group := group ]> group_result in
    let category_result :=
      fold_left (fun (category_result : gmap string Category) c =>
        let category := mkCategory (cat_id c) (ynab_normalize (cat_name c)) (category_group_id c) in
        <[ cat_id category := category ]> category_result) (jg_categories g) category_result in
    (group_result, category_result)) json p in
              map_Forall (fun k g => grp_id g = k) p'.1 /\
              map_Forall (fun k c => cat_id c = k /\ is_Some (p'.1 !! category_group_id c)) p'.2).
  { induction Hjson as [|g json Hg Hjson IH]; intros [G C] [HG HC]; simpl in *; [auto|].
    apply IH. simpl. split.
    - apply map_Forall_insert_2; [reflexivity|exact HG].
    - apply (categories_inner_wf _ _ _ (jg_id g)).
      + rewrite lookup_insert_eq. eauto.
      + exact Hg.
      + intros k c Hk. destruct (HC k c Hk) as [Hid Hs]. split; [exact Hid|].
        destruct (decide (jg_id g = category_group_id c)) as [<-|Hne].
        * rewrite lookup_insert_eq. eauto.
        * rewrite lookup_insert_ne by exact Hne. exact Hs. }
  apply H. simpl. split; apply map_Forall_empty.
Qed.

(** X5: when every nested category names its enclosing group as its
    [category_group_id] (the shape of YNAB's [category_groups] payload),
    [categories_from_json] stores every group and every category under its
    own id, and the group of every category is in the group map, so
    [fmt_ynab_category] never raises on its result. *)
Theorem categories_from_json_wf json :
  Forall (fun g => Forall (fun c => category_group_id c = jg_id g) (jg_categories g)) json ->
  map_Forall (fun k g => grp_id g = k) (categories_from_json json).1 /\
  map_Forall (fun k c => cat_id c = k /\
                is_Some ((categories_from_json json).1 !! category_group_id c))
    (categories_from_json json).2.
Proof. apply categories_from_json_wf_gen. Qed.


Lemma categories_from_json_wf_witness :
  let json := [mkJsonCategoryGroup "g-imc" "Internal Master Category"
                 [mkCategory "c-inflows" "Inflows" "g-imc"];
               mkJsonCategoryGroup "g-food" "Food"
                 [mkCategory "c-groceries" "Groceries" "g-food";
                  mkCategory "c-dining" "Dining Out" "g-food"]] in
  Forall (fun g => Forall (fun c => category_group_id c = jg_id g) (jg_categories g)) json /\
  map_Forall (fun k g => grp_id g = k) (categories_from_json json).1 /\
  map_Forall (fun k c => cat_id c = k /\
                is_Some ((categories_from_json json).1 !! category_group_id c))
    (categories_from_json json).2.
Proof.
  intros json.
  assert (H : Forall (fun g => Forall (fun c => category_group_id c = jg_id g) (jg_categories g)) json)
    by (repeat constructor).
  split; [exact H|]. apply categories_from_json_wf. exact H.
Defined.

(** X6: on the maps the converters build from such a payload, listing mode
    never raises: it runs to the end, printing only, with the seen set,
    the count and the log left as they were. *)
Theorem list_ynab_ids_fetched_total am json_accounts json_categories s :
  Forall (fun g => Forall (fun c => category_group_id c = jg_id g) (jg_categories g))
    json_categories ->
  exists new,
    list_ynab_ids am (accounts_from_json json_accounts)
      (categories_from_json json_categories).1 (categories_from_json json_categories).2 s =
    (mkSt (seen_transactions s) (count s) (out s ++ new) (logs s), Ok tt).
Proof.
  intros Hjson. destruct (categories_from_json_wf_gen _ Hjson) as [_ Hcat].
  set (groups := (categories_from_json json_categories).1) in *.
  set (categories := (categories_from_json json_categories).2) in *.
  unfold list_ynab_ids, pretty_print.
  destruct (pretty_print_items_run am (fun x => Ok (acc_name x))
              (sort_by (fun x y : string * Account => account_lt x.2 y.2)
                 (map_to_list (accounts_from_json json_accounts))) s) as [la [_ Hruna]].
  { apply List.Forall_forall. eauto. }
  edestruct (pretty_print_items_run am (fun x => fmt_ynab_category (cat_id x) groups categories)
               (sort_by (fun x y : string * Category => category_lt x.2 y.2) (map_to_list categories)))
    as [lc [_ Hrunc]].
  { apply List.Forall_forall. intros [k c] Hin. apply in_sorted_map_to_list in Hin.
    destruct (Hcat k c Hin) as [Hid [g Hg]]. simpl.
    unfold fmt_ynab_category. rewrite Hid, Hin, Hg. eauto. }
  exists (concat la ++ concat lc).
  rewrite (bind_ok _ _ _ _ _ Hruna), Hrunc. simpl. rewrite app_assoc. reflexivity.
Qed.

Lemma list_ynab_ids_fetched_total_witness :
  Forall (fun g => Forall (fun c => category_group_id c = jg_id g) (jg_categories g))
    [mkJsonCategoryGroup "g-food" "Food" [mkCategory "c-groceries" "Groceries" "g-food"]] /\
  exists new,
    list_ynab_ids ∅ (accounts_from_json [mkAccount "a-1" "Checking"])
      (categories_from_json [mkJsonCategoryGroup "g-food" "Food"
                               [mkCategory "c-groceries" "Groceries" "g-food"]]).1
      (categories_from_json [mkJsonCategoryGroup "g-food" "Food"
                               [mkCategory "c-groceries" "Groceries" "g-food"]]).2 (st0 ∅) =
    (mkSt (seen_transactions (st0 ∅)) (count (st0 ∅)) (out (st0 ∅) ++ new) (logs (st0 ∅)), Ok tt).
Proof.
  split; [repeat constructor|].
  apply list_ynab_ids_fetched_total. repeat constructor.
Defined.

(** *** The ledger side *)

Lemma build_account_mapping_fold entries (m : gmap string string) v acc :
  fold_left (fun (mapping : gmap string string) e =>
    match e with
    | Open account meta =>
        match meta !! "ynab-id" with
        | Some v => <[ v := account ]> mapping
        | None => mapping
        end
    | _ => mapping
    end) entries m !! v = Some acc ->
  m !! v = Some acc \/
  exists meta, In (Open acc meta) entries /\ meta !! "ynab-id" = Some v.
Proof.
  revert m. induction entries as [|e entries IH]; intros m H; simpl in H; [auto|].
  destruct (IH _ H) as [Hm|(meta & Hin & Hv)]; [|right; exists meta; simpl; auto].
  destruct e as [account meta| |]; [|auto|auto].
  destruct (meta !! "ynab-id") as [v'|] eqn:Hmeta; [|auto].
  destruct (decide (v' = v)) as [->|Hne].
  - rewrite lookup_insert_eq in Hm. injection Hm as <-. right. exists meta. simpl. auto.
  - rewrite lookup_insert_ne in Hm by exact Hne. auto.
Qed.

Lemma mapping_fold_skip entries (m : gmap string string) v :
  (forall acc meta, In (Open acc meta) entries -> meta !! "ynab-id" <> Some v) ->
  fold_left (fun (mapping : gmap string string) e =>
    match e with
    | Open account meta =>
        match meta !! "ynab-id" with
        | Some v => <[ v := account ]> mapping
        | None => mapping
        end
    | _ => mapping
    end) entries m !! v = m !! v.
Proof.
  revert m. induction entries as [|e entries IH]; intros m Hno; [reflexivity|].
  simpl. rewrite IH by (intros acc meta Hin; apply (Hno acc meta); right; exact Hin).
  destruct e as [acc meta| |]; simpl; [|reflexivity|reflexivity].
  destruct (meta !! "ynab-id") as [v'|] eqn:Hv; [|reflexivity].
  apply lookup_insert_ne. intros ->. apply (Hno acc meta); [left; reflexivity|exact Hv].
Qed.

(** X7: the Account Mapping Table maps a YNAB id only to an account opened
    in the ledger with that [ynab-id] metadata; the last [open] carrying a
    given [ynab-id] wins, whatever follows it; entries other than [open],
    wherever they stand, never change it. *)
Theorem build_account_mapping_spec entries :
  (forall v acc, build_account_mapping entries !! v = Some acc ->
     exists meta, In (Open acc meta) entries /\ meta !! "ynab-id" = Some v) /\
  (forall pre acc meta v post, entries = pre ++ Open acc meta :: post ->
     meta !! "ynab-id" = Some v ->
     (forall acc' meta', In (Open acc' meta') post -> meta' !! "ynab-id" <> Some v) ->
     build_account_mapping entries !! v = Some acc) /\
  (forall pre e post, entries = pre ++ e :: post -> (forall acc meta, e <> Open acc meta) ->
     build_account_mapping entries = build_account_mapping (pre ++ post)).
Proof.
  split; [|split].
  - intros v acc H. destruct (build_account_mapping_fold _ _ _ _ H) as [H0|H0]; [|exact H0].
    rewrite lookup_empty in H0. discriminate.
  - intros pre acc meta v post -> Hv Hpost. unfold build_account_mapping.
    rewrite fold_left_app. simpl. rewrite mapping_fold_skip by exact Hpost.
    rewrite Hv. apply lookup_insert_eq.
  - intros pre e post -> He. unfold build_account_mapping.
    rewrite !fold_left_app. simpl.
    destruct e as [acc meta| |]; [|reflexivity|reflexivity]. exfalso. exact (He acc meta eq_refl).
Qed.

Lemma get_existing_fold entries (seen : gset string) x :
  x ∈ fold_left (fun (seen : gset string) e =>
    match e with
    | Txn meta =>
        match meta !! "ynab-id" with Some v => {[ v ]} ∪ seen | None => seen end
    | _ => seen
    end) entries seen <->
  x ∈ seen \/ exists meta, In (Txn meta) entries /\ meta !! "ynab-id" = Some x.
Proof.
  revert seen. induction entries as [|e entries IH]; intros seen; simpl.
  - split; [auto|]. intros [H|(? & [] & _)]. exact H.
  - rewrite IH. split.
    + intros [H|(meta & Hin & Hx)]; [|right; exists meta; auto].
      destruct e as [| meta |]; [auto| |auto].
      destruct (meta !! "ynab-id") as [v|] eqn:Hv; [|auto].
      apply elem_of_union in H as [H|H]; [|auto].
      apply elem_of_singleton in H as ->. right. exists meta. auto.
    + intros [H|(meta & [Heq|Hin] & Hx)].
      * left. destruct e as [| meta |]; [exact H| |exact H].
        destruct (meta !! "ynab-id"); [set_solver|exact H].
      * subst e. left. rewrite Hx. set_solver.
      * right. exists meta. auto.
Qed.

(** X8: the seen set seeded from the ledger holds exactly the [ynab-id]
    metadata of the ledger's transactions; the [ynab-id] of an [open]
    directive is not in it. *)
Theorem get_existing_ynab_transaction_ids_spec entries x :
  x ∈ get_existing_ynab_transaction_ids entries <->
  exists meta, In (Txn meta) entries /\ meta !! "ynab-id" = Some x.
Proof.
  unfold get_existing_ynab_transaction_ids. rewrite get_existing_fold.
  split; [intros [H|H]; [set_solver|exact H]|auto].
Qed.

(** *** [budget_from_json] *)

(** X9: with two or more budgets, a missing or empty budget name raises
    [Exception('No budget specified.')], and a name that no budget or
    several budgets carry raises [Exception('Could not find any budget ...')]. *)
Theorem budget_from_json_errors name l :
  (2 <= length l)%nat ->
  (truthy name = false -> budget_from_json name l = Raise NoBudgetSpecified) /\
  (forall n, name = Some n -> truthy name = true ->
     length (List.filter (fun a => String.eqb (b_name a) n) l) <> 1%nat ->
     budget_from_json name l = Raise BudgetNotFound).
Proof.
  intros Hl. unfold budget_from_json.
  destruct (Nat.ltb_spec 1 (length l)) as [_|]; [|lia].
  split.
  - intros Ht. unfold truthy_value. rewrite Ht. reflexivity.
  - intros n -> Ht Hlen. unfold truthy_value. rewrite Ht.
    destruct (List.filter _ l) as [|b [|b' r]]; [reflexivity| |reflexivity].
    simpl in Hlen. lia.
Qed.

Lemma budget_from_json_errors_witness :
  (2 <= length [mkBudget "b-1" "Home" "USD"; mkBudget "b-2" "Home" "EUR"])%nat /\
  (truthy (Some "Home") = false ->
     budget_from_json (Some "Home") [mkBudget "b-1" "Home" "USD"; mkBudget "b-2" "Home" "EUR"] =
     Raise NoBudgetSpecified) /\
  (forall n, Some "Home" = Some n -> truthy (Some "Home") = true ->
     length (List.filter (fun a => String.eqb (b_name a) n)
               [mkBudget "b-1" "Home" "USD"; mkBudget "b-2" "Home" "EUR"]) <> 1%nat ->
     budget_from_json (Some "Home") [mkBudget "b-1" "Home" "USD"; mkBudget "b-2" "Home" "EUR"] =
     Raise BudgetNotFound).
Proof.
  split; [simpl; lia|]. apply budget_from_json_errors. simpl. lia.
Defined.

(** *** What the import loop prints and counts *)

Lemma meta_ids_app l1 l2 : meta_ids (l1 ++ l2) = meta_ids l1 ++ meta_ids l2.
Proof. unfold meta_ids. apply flat_map_app. Qed.

(** An action that prints no [ynab-id] line, leaves the count alone and
    only adds to the seen set, whether it returns or raises. *)
Definition quiet {A} (m : M A) : Prop :=
  forall s, exists new, out (fst (m s)) = out s ++ new /\ meta_ids new = [] /\
    count (fst (m s)) = count s /\ seen_transactions s ⊆ seen_transactions (fst (m s)).

Lemma quiet_ret {A} (a : A) : quiet (ret a).
Proof. intros s. exists []. rewrite app_nil_r. simpl. split_and!; auto; set_solver. Qed.
Lemma quiet_lift {A} (r : res A) : quiet (lift r).
Proof. intros s. exists []. rewrite app_nil_r. simpl. split_and!; auto; set_solver. Qed.
Lemma quiet_log e : quiet (log e).
Proof. intros s. exists []. rewrite app_nil_r. simpl. split_and!; auto; set_solver. Qed.
Lemma quiet_add_seen x : quiet (add_seen x).
Proof. intros s. exists []. rewrite app_nil_r. simpl. split_and!; auto; set_solver. Qed.
Lemma quiet_get_seen : quiet get_seen.
Proof. intros s. exists []. rewrite app_nil_r. simpl. split_and!; auto; set_solver. Qed.
Lemma quiet_print l : meta_ids [l] = [] -> quiet (print l).
Proof. intros Hl s. exists [l]. simpl. split_and!; auto; set_solver. Qed.

Lemma quiet_bind {A B} (m : M A) (k : A -> M B) :
  quiet m -> (forall a, quiet (k a)) -> quiet (bind m k).
Proof.
  intros Hm Hk s. unfold bind. specialize (Hm s).
  destruct (m s) as [s1 [a|e]]; simpl in *; [|exact Hm].
  destruct Hm as (new1 & Ho1 & Hm1 & Hc1 & Hs1).
  destruct (Hk a s1) as (new2 & Ho2 & Hm2 & Hc2 & Hs2).
  exists (new1 ++ new2). rewrite meta_ids_app, Hm1, Hm2, Ho2, Ho1, app_assoc.
  split_and!; auto; [congruence|set_solver].
Qed.

Create HintDb quiet_db.
#[local] Hint Resolve quiet_ret quiet_lift quiet_log quiet_add_seen quiet_get_seen : quiet_db.
#[local] Hint Extern 1 (quiet (print _)) => apply quiet_print; reflexivity : quiet_db.

Ltac solve_quiet :=
  repeat (match goal with
          | |- quiet (bind _ _) => apply quiet_bind; [|intro]
          | |- quiet (if ?b then _ else _) => destruct b
          | |- quiet (match ?o with _ => _ end) => destruct o
          end; auto with quiet_db);
  auto with quiet_db.

Lemma quiet_get_target_account ctx p m c a i adj : quiet (get_target_account ctx p m c a i adj).
Proof. unfold get_target_account. solve_quiet. Qed.
#[local] Hint Resolve quiet_get_target_account : quiet_db.

Lemma quiet_emit_subtransactions ctx subs : quiet (emit_subtransactions ctx subs).
Proof. induction subs as [|sub subs IH]; simpl; solve_quiet. Qed.
#[local] Hint Resolve quiet_emit_subtransactions : quiet_db.

Lemma quiet_warn_no_leg ctx t : quiet (warn_no_leg ctx t).
Proof. unfold warn_no_leg. solve_quiet. Qed.

(** [emit] prints one [ynab-id] line, for the transaction it imports. *)
Lemma emit_one_meta ctx t s :
  t_id t ∉ seen_transactions s ->
  exists new, out (fst (emit ctx t s)) = out s ++ new /\
    seen_transactions s ⊆ seen_transactions (fst (emit ctx t s)) /\
    meta_ids new = [t_id t] /\ count (fst (emit ctx t s)) = count s + 1 /\
    t_id t ∈ seen_transactions (fst (emit ctx t s)).
Proof.
  intros Hnew. unfold emit.
  do 4 (erewrite bind_ok by reflexivity).
  match goal with |- context [fst (?m ?s')] =>
    assert (Hq : quiet m) by solve_quiet; destruct (Hq s') as (new & Ho & Hm & Hc & Hs) end.
  exists ([LHeader (t_date t) (t_payee_name t) (fmt_memo (t_memo t)); LMeta (t_id t)] ++ new).
  rewrite Ho, Hc, meta_ids_app, Hm.
  cbn [out count seen_transactions] in Hs |- *.
  split; [rewrite <- !app_assoc; reflexivity|].
  split; [set_solver|]. split; [reflexivity|]. split; [reflexivity|]. set_solver.
Qed.

(** Processing one transaction prints at most one [ynab-id] line, for that
    transaction, counting it, and only when its id was not seen before. *)
Definition imports_at_most {A} (i : string) (m : M A) : Prop :=
  forall s, exists new, out (fst (m s)) = out s ++ new /\
    seen_transactions s ⊆ seen_transactions (fst (m s)) /\
    ((meta_ids new = [] /\ count (fst (m s)) = count s) \/
     (meta_ids new = [i] /\ count (fst (m s)) = count s + 1 /\
      (i ∉ seen_transactions s) /\ (i ∈ seen_transactions (fst (m s))))).

Lemma imports_at_most_quiet {A} i (m : M A) : quiet m -> imports_at_most i m.
Proof.
  intros Hq s. destruct (Hq s) as (new & Ho & Hm & Hc & Hs). exists new. auto.
Qed.

Lemma imports_at_most_bind {A B} i (m : M A) (k : A -> M B) :
  quiet m -> (forall a, imports_at_most i (k a)) -> imports_at_most i (bind m k).
Proof.
  intros Hm Hk s. unfold bind. specialize (Hm s).
  destruct (m s) as [s1 [a|e]]; simpl in *.
  - destruct Hm as (new1 & Ho1 & Hm1 & Hc1 & Hs1).
    destruct (Hk a s1) as (new2 & Ho2 & Hs2 & H2).
    exists (new1 ++ new2). rewrite meta_ids_app, Hm1, Ho2, Ho1, app_assoc. simpl.
    split; [reflexivity|]. split; [set_solver|].
    destruct H2 as [[Hm2 Hc2]|(Hm2 & Hc2 & Hn2 & Hi2)]; [left|right]; split_and!;
      auto; try congruence; set_solver.
  - destruct Hm as (new1 & Ho1 & Hm1 & Hc1 & Hs1). exists new1. auto.
Qed.

Lemma imports_at_most_process ctx t : imports_at_most (t_id t) (process ctx t).
Proof.
  assert (Hgate : imports_at_most (t_id t) (dedup_gate ctx t)).
  { intros s. unfold dedup_gate. rewrite (bind_ok get_seen _ s s (seen_transactions s)) by reflexivity.
    case_bool_decide as Hin; [apply imports_at_most_quiet, quiet_log|].
    destruct (opt_mem _ _); [apply imports_at_most_quiet, quiet_log|].
    destruct (emit_one_meta ctx t s Hin) as (new & Ho & Hs & Hm & Hc & Hi).
    exists new. split; [exact Ho|]. split; [exact Hs|]. right. auto. }
  assert (Hchecked : imports_at_most (t_id t) (process_checked ctx t)).
  { apply imports_at_most_bind; [apply quiet_warn_no_leg|intros _; exact Hgate]. }
  unfold process. destruct (skip_starting_balances ctx); [|exact Hchecked].
  destruct (_ && _); [apply imports_at_most_quiet; solve_quiet|].
  destruct (_ && _); [apply imports_at_most_quiet; solve_quiet|exact Hchecked].
Qed.

Lemma loop_fresh_ids_gen ctx ts s :
  exists new, out (fst (loop ctx ts s)) = out s ++ new /\
    NoDup (meta_ids new) /\
    Forall (fun x => (x ∉ seen_transactions s) /\ In x (map t_id ts)) (meta_ids new) /\
    count (fst (loop ctx ts s)) = count s + Z.of_nat (length (meta_ids new)).
Proof.
  revert s. induction ts as [|t ts IH]; intros s.
  - exists []. simpl. rewrite app_nil_r. split_and!; [reflexivity|constructor|constructor|lia].
  - cbn [loop]. unfold bind.
    destruct (imports_at_most_process ctx t s) as (new1 & Ho1 & Hs1 & H1).
    destruct (process ctx t s) as [s1 [[]|e]]; simpl in *.
    + destruct (IH s1) as (new2 & Ho2 & Hnd2 & Hf2 & Hc2).
      exists (new1 ++ new2). rewrite Ho2, Ho1, <- app_assoc, meta_ids_app.
      split; [reflexivity|].
      rewrite List.Forall_forall in Hf2.
      destruct H1 as [[Hm1 Hc1]|(Hm1 & Hc1 & Hn1 & Hi1)]; rewrite Hm1; simpl.
      * split_and!; [exact Hnd2| |lia].
        apply List.Forall_forall. intros x Hx. destruct (Hf2 x Hx) as [Hxs Hxin].
        split; [set_solver|right; exact Hxin].
      * split_and!.
        -- constructor; [|exact Hnd2]. intros Hx. apply list_elem_of_In in Hx. destruct (Hf2 _ Hx) as [Hxs _]. exact (Hxs Hi1).
        -- constructor; [split; [exact Hn1|left; reflexivity]|].
           apply List.Forall_forall. intros x Hx. destruct (Hf2 x Hx) as [Hxs Hxin].
           split; [set_solver|right; exact Hxin].
        -- lia.
    + exists new1. split; [exact Ho1|].
      destruct H1 as [[Hm1 Hc1]|(Hm1 & Hc1 & Hn1 & Hi1)]; rewrite Hm1; simpl.
      * split_and!; [constructor|constructor|lia].
      * split_and!; [apply NoDup_singleton| |lia].
        constructor; [split; [exact Hn1|left; reflexivity]|constructor].
Qed.

(** X10: across the loop, whether it finishes or stops on an exception,
    the [ynab-id] lines printed name pairwise distinct transactions of the
    input, none of them in the seen set the loop started from, and the
    count goes up by exactly the number of these lines. *)
Theorem loop_prints_fresh_ids ctx ts s :
  exists new, out (fst (loop ctx ts s)) = out s ++ new /\
    NoDup (meta_ids new) /\
    Forall (fun x => (x ∉ seen_transactions s) /\ In x (map t_id ts)) (meta_ids new) /\
    count (fst (loop ctx ts s)) = count s + Z.of_nat (length (meta_ids new)).
Proof. apply loop_fresh_ids_gen. Qed.


(** X11: in import mode, whatever the outcome, the entries printed by the
    whole run carry pairwise distinct [ynab-id]s, each the id of a
    reconciled, non-deleted transaction of the snapshot and none already in
    the ledger's transactions; the count is the number of entries printed,
    and a run that completes ends its log with [Imported {count} new
    transactions]. *)
Theorem main_import_report cfg snap :
  list_ynab_ids_mode cfg = false ->
  NoDup (meta_ids (out (fst (main cfg snap)))) /\
  Forall (fun x => (x ∉ get_existing_ynab_transaction_ids (beancount_entries cfg)) /\
                   In x (map t_id (List.filter eligible (snap_transactions snap))))
    (meta_ids (out (fst (main cfg snap)))) /\
  count (fst (main cfg snap)) = Z.of_nat (length (meta_ids (out (fst (main cfg snap))))) /\
  (snd (main cfg snap) = Ok tt ->
   exists l, logs (fst (main cfg snap)) = l ++ [InfoImported (count (fst (main cfg snap)))]).
Proof.
  intros Hmode. rewrite (main_import cfg snap Hmode).
  destruct (resolve_inflows _ _) as [inflows|e]; simpl.
  - unfold import_loop.
    destruct (loop_fresh_ids_gen (import_ctx cfg snap inflows)
                (List.filter eligible (snap_transactions snap)) (seed cfg))
      as (new & Ho & Hnd & Hf & Hc).
    destruct (loop _ _ (seed cfg)) as [s1 [[]|e]]; simpl in *.
    + rewrite Ho, Hc. split_and!; [exact Hnd|exact Hf|lia|]. intros _. eauto.
    + rewrite Ho, Hc. split_and!; [exact Hnd|exact Hf|lia|]. discriminate.
  - split_and!; [constructor|constructor|reflexivity|discriminate].
Qed.

Lemma main_import_report_witness :
  list_ynab_ids_mode (sample_cfg []) = false /\
  NoDup (meta_ids (out (fst (main (sample_cfg []) (sample_snap [pay_a; pay_b; pay_uncleared]))))) /\
  Forall (fun x => (x ∉ get_existing_ynab_transaction_ids (beancount_entries (sample_cfg []))) /\
                   In x (map t_id (List.filter eligible
                                     (snap_transactions (sample_snap [pay_a; pay_b; pay_uncleared])))))
    (meta_ids (out (fst (main (sample_cfg []) (sample_snap [pay_a; pay_b; pay_uncleared]))))) /\
  count (fst (main (sample_cfg []) (sample_snap [pay_a; pay_b; pay_uncleared]))) =
    Z.of_nat (length (meta_ids (out (fst (main (sample_cfg []) (sample_snap [pay_a; pay_b; pay_uncleared])))))) /\
  (snd (main (sample_cfg []) (sample_snap [pay_a; pay_b; pay_uncleared])) = Ok tt ->
   exists l, logs (fst (main (sample_cfg []) (sample_snap [pay_a; pay_b; pay_uncleared]))) =
     l ++ [InfoImported (count (fst (main (sample_cfg []) (sample_snap [pay_a; pay_b; pay_uncleared]))))]).
Proof.
  split; [reflexivity|]. apply main_import_report. reflexivity.
Defined.

(** *** [from_milli] on the amount of a transaction *)

Module MilliFacts.
Import PyDecimal DecimalFacts.

Lemma from_milli_shape x :
  Z.abs x < 10 ^ 28 ->
  exists c e, from_milli x = Ok (mkDec (x <? 0) c e) /\ 0 <= c /\ -3 <= e <= 0 /\
    (e < 0 -> c mod 10 <> 0) /\ (x <> 0 -> 0 < c) /\ c * 1000 = Z.abs x * 10 ^ (- e).
Proof.
  intros Hx. destruct (Z.eq_dec x 0) as [->|Hx0].
  { exists 0, 0. split; [vm_compute; reflexivity|]. lia. }
  unfold from_milli, div, of_Z. cbn [dsign dcoef dexp].
  change (Z.abs 1000 =? 0) with false. change (ndigits (Z.abs 1000)) with 4.
  change (1000 <? 0) with false. rewrite xorb_false_r. cbv iota.
  destruct (Z.eqb_spec (Z.abs x) 0); [lia|].
  set (a := Z.abs x) in *.
  pose proof (ndigits_le a 28 ltac:(lia) ltac:(lia)) as Hn.
  pose proof (ndigits_spec a ltac:(lia)) as (Hn1 & _ & _).
  cbv [prec].
  set (shift := 4 - ndigits a + 28 + 1).
  destruct (Z.leb_spec 0 shift); [|lia].
  change (Z.abs 1000) with 1000.
  rewrite (div_eucl_exact (a * 10 ^ shift) 1000 (a * 10 ^ (shift - 3))); [|lia|].
  2:{ change 1000 with (10 ^ 3). rewrite <- Z.mul_assoc, <- Z.pow_add_r by lia.
      do 2 f_equal. lia. }
  change (negb (0 =? 0)) with false. cbv iota beta zeta.
  replace (0 - 0 - shift) with (- shift) by lia. replace (0 - 0) with 0 by lia.
  pose proof (trim_spec (Z.to_nat (0 - - shift)) (a * 10 ^ (shift - 3)) (- shift) 0) as Ht.
  destruct (trim _ _ _ _) as [c' e'].
  specialize (Ht ltac:(rewrite Z2Nat.id; lia)).
  destruct Ht as (Hc & He & Hend).
  destruct (trim_arith a c' (e' - - shift) (- e')) as [Hval Hb]; try lia.
  { replace (e' - - shift + - e' - 3) with (shift - 3) by lia. exact Hc. }
  assert (He3 : -3 <= e').
  { destruct (Z_lt_ge_dec e' (-3)) as [Hlt|]; [|lia]. exfalso.
    destruct Hend as [|Hm]; [lia|]. apply Hm.
    replace (- e') with (3 + (1 + (- e' - 4))) in Hval by lia.
    rewrite !Z.pow_add_r in Hval by lia.
    set (P := 10 ^ (- e' - 4)) in Hval. change (10 ^ 3) with 1000 in Hval.
    change (10 ^ 1) with 10 in Hval.
    assert (c' = (a * P) * 10) as -> by lia. apply Z.mod_mul. lia. }
  exists c', e'.
  rewrite fix_noop; [|lia|cbv [Etiny Emin prec]; lia].
  split; [reflexivity|]. split_and!; lia.
Qed.

Lemma value_milli x c e :
  0 <= c -> e <= 0 -> (x <> 0 -> 0 < c) -> c * 1000 = Z.abs x * 10 ^ (- e) ->
  Qeq (value (mkDec (x <? 0) c e)) (x # 1000).
Proof.
  intros Hc He Hpos Hval. unfold value.
  assert (Hp : 0 < 10 ^ (- e)) by (apply Z.pow_pos_nonneg; lia).
  assert (Hm : (if x <? 0 then - c else c) * 1000 = x * 10 ^ (- e)).
  { destruct (Z.ltb_spec x 0); lia. }
  destruct (Z.leb_spec 0 e).
  - assert (e = 0) as -> by lia. simpl in Hm |- *.
    unfold Qeq, inject_Z; simpl. lia.
  - unfold Qeq; simpl. rewrite Z2Pos.id by lia. lia.
Qed.

End MilliFacts.

(** X12: for an amount of at most 28 digits, [from_milli] returns the
    decimal with the amount's sign whose value is exactly [x/1000], with at
    most three fractional digits and no trailing zero after the point
    (Python prints [12500] milliunits as [12.5], [5000] as [5]). *)
Theorem from_milli_normal x :
  Z.abs x < 10 ^ 28 ->
  exists c e, from_milli x = Ok (PyDecimal.mkDec (x <? 0) c e) /\
    -3 <= e <= 0 /\ (e < 0 -> c mod 10 <> 0) /\
    Qeq (PyDecimal.value (PyDecimal.mkDec (x <? 0) c e)) (x # 1000).
Proof.
  intros Hx. destruct (MilliFacts.from_milli_shape x Hx) as (c & e & Hm & Hc & He & Hz & Hpos & Hval).
  exists c, e. split; [exact Hm|]. split; [exact He|]. split; [exact Hz|].
  apply MilliFacts.value_milli; lia.
Qed.

Lemma from_milli_normal_witness :
  Z.abs 12500 < 10 ^ 28 /\
  exists c e, from_milli 12500 = Ok (PyDecimal.mkDec (12500 <? 0) c e) /\
    -3 <= e <= 0 /\ (e < 0 -> c mod 10 <> 0) /\
    Qeq (PyDecimal.value (PyDecimal.mkDec (12500 <? 0) c e)) (12500 # 1000).
Proof.
  split; [lia|]. apply from_milli_normal. lia.
Defined.

(** ** Split transfers and skipped starting balances *)

Lemma bind_ok_inv {A B} (m : M A) (k : A -> M B) s s' (b : B) :
  bind m k s = (s', Ok b) -> exists a s1, m s = (s1, Ok a) /\ k a s1 = (s', Ok b).
Proof. unfold bind. destruct (m s) as [s1 [a|e]]; [eauto|discriminate]. Qed.

(** When [emit_subtransactions] completes, the truthy
    [transfer_transaction_id] of every subtransaction is in the seen set. *)
Lemma emit_subtransactions_marks ctx subs s s' :
  emit_subtransactions ctx subs s = (s', Ok tt) ->
  forall sub x, In sub subs ->
    truthy_value (sub_transfer_transaction_id sub) = Some x ->
    x ∈ seen_transactions s'.
Proof.
  revert s. induction subs as [|sub0 subs IH]; intros s H sub x Hin Hx; [destruct Hin|].
  cbn [emit_subtransactions] in H.
  apply bind_ok_inv in H as (tgt & s1 & H1 & H).
  apply bind_ok_inv in H as (m & s2 & H2 & H).
  apply bind_ok_inv in H as (nm & s3 & H3 & H).
  apply bind_ok_inv in H as (u & s4 & H4 & H).
  apply bind_ok_inv in H as (u' & s5 & H5 & H).
  destruct Hin as [<-|Hin]; [|exact (IH s5 H sub x Hin Hx)].
  rewrite Hx in H5. unfold add_seen in H5. inversion H5; subst s5.
  destruct (quiet_emit_subtransactions ctx subs
              (mkSt ({[x]} ∪ seen_transactions s4) (count s4) (out s4) (logs s4)))
    as (new & _ & _ & _ & Hsub).
  rewrite H in Hsub. simpl in Hsub. set_solver.
Qed.

(** When [process] imports a transaction (the counter moves) and completes,
    the truthy [transfer_transaction_id] of each of its subtransactions is
    in the seen set. *)
Lemma process_split_marks ctx t s s' :
  process ctx t s = (s', Ok tt) -> count s' <> count s ->
  forall sub x, In sub (t_subtransactions t) ->
    truthy_value (sub_transfer_transaction_id sub) = Some x ->
    x ∈ seen_transactions s'.
Proof.
  intros H Hc sub x Hin Hx.
  assert (Hpc : process_checked ctx t s = (s', Ok tt)).
  { unfold process in H. destruct (skip_starting_balances ctx); [|exact H].
    destruct (_ && _).
    { unfold bind, lift, log in H. destruct (to_bean _ _); inversion H; subst; simpl in Hc; congruence. }
    destruct (_ && _).
    { unfold bind, lift, log in H. destruct (to_bean _ _); inversion H; subst; simpl in Hc; congruence. }
    exact H. }
  unfold process_checked in Hpc.
  apply bind_ok_inv in Hpc as (u0 & s1 & H1 & Hpc).
  pose proof (warn_no_leg_frame ctx t s) as Hw. rewrite H1 in Hw. simpl in Hw.
  destruct Hw as (_ & Hc1 & _).
  unfold dedup_gate in Hpc.
  apply bind_ok_inv in Hpc as (seen & s2 & H2 & Hpc).
  unfold get_seen in H2. inversion H2; subst s2 seen.
  destruct (bool_decide (t_id t ∈ seen_transactions s1)).
  { unfold log in Hpc. inversion Hpc; subst. simpl in Hc. congruence. }
  destruct (opt_mem (t_transfer_transaction_id t) (seen_transactions s1)).
  { unfold log in Hpc. inversion Hpc; subst. simpl in Hc. congruence. }
  unfold emit in Hpc.
  do 9 (apply bind_ok_inv in Hpc as (? & ? & ? & Hpc)).
  match goal with
  | Hm : (match t_subtransactions t with _ => _ end) ?si = (?so, Ok ?v) |- _ =>
      destruct (t_subtransactions t) as [|sub0 l] eqn:Es; [destruct Hin|];
      destruct v; unfold print in Hpc; inversion Hpc; subst; simpl;
      exact (emit_subtransactions_marks ctx (sub0 :: l) si so Hm sub x Hin Hx)
  end.
Qed.

(** X13: once [process] has imported a split transaction (the counter moved)
    and completed, a transaction whose id is the [transfer_transaction_id]
    of one of its subtransactions (the other leg of a split transfer),
    processed at any later point of the loop, after any further
    transactions [ts], prints nothing, is not counted and marks nothing:
    the [seen_transactions.add] of line 418 suppresses it. *)
Theorem split_transfer_other_leg_skipped ctx t u s s' sub ts :
  process ctx t s = (s', Ok tt) -> count s' <> count s ->
  In sub (t_subtransactions t) ->
  truthy_value (sub_transfer_transaction_id sub) = Some (t_id u) ->
  frame (fst (loop ctx ts s')) (fst (process ctx u (fst (loop ctx ts s')))).
Proof.
  intros H Hc Hin Hx. apply process_dup. left.
  apply (grows_loop ctx ts s').
  exact (process_split_marks ctx t s s' H Hc sub (t_id u) Hin Hx).
Qed.

Lemma split_transfer_other_leg_skipped_witness :
  process (sample_ctx ∅) split_transfer (st0 ∅) =
    (fst (process (sample_ctx ∅) split_transfer (st0 ∅)), Ok tt) /\
  frame (fst (loop (sample_ctx ∅) [pay_a]
                 (fst (process (sample_ctx ∅) split_transfer (st0 ∅)))))
    (fst (process (sample_ctx ∅) split_other_leg
            (fst (loop (sample_ctx ∅) [pay_a]
                    (fst (process (sample_ctx ∅) split_transfer (st0 ∅))))))).
Proof.
  split; [vm_compute; reflexivity|].
  apply (split_transfer_other_leg_skipped (sample_ctx ∅) split_transfer split_other_leg
           (st0 ∅) (fst (process (sample_ctx ∅) split_transfer (st0 ∅)))
           (mkSubtransaction "s-1" (-3000) None None None (Some "a-savings") (Some "t-x"))
           [pay_a]).
  - vm_compute. reflexivity.
  - vm_compute. discriminate.
  - left. reflexivity.
  - reflexivity.
Defined.

(** X14: with [--skip-starting-balances], a transaction whose payee is
    [Starting Balance] and whose category is the inflows category, or is
    empty, prints nothing, is not counted and is not added to the seen
    set, whether or not it was seen before; the run goes on when its
    account resolves. *)
Theorem starting_balance_skipped ctx t s :
  skip_starting_balances ctx = true ->
  t_payee_name t = Some "Starting Balance" ->
  t_category_id t = Some (inflows_category_id ctx) \/ truthy (t_category_id t) = false ->
  frame s (fst (process ctx t s)) /\
  (forall a, to_bean ctx (t_account_id t) = Ok a -> snd (process ctx t s) = Ok tt).
Proof.
  intros Hskip Hp Hcat. unfold process. rewrite Hskip, Hp. cbn [opt_eqb].
  rewrite String.eqb_refl, andb_true_l.
  assert (Hb : forall e, frame s (fst ((let* a := lift (to_bean ctx (t_account_id t)) in log (e a)) s)) /\
               (forall a, to_bean ctx (t_account_id t) = Ok a ->
                  snd ((let* a := lift (to_bean ctx (t_account_id t)) in log (e a)) s) = Ok tt)).
  { intros e. unfold bind, lift, log.
    destruct (to_bean ctx (t_account_id t)); simpl; split; try apply frame_refl;
      try (intros; reflexivity); try (intros ? ?; discriminate).
    repeat split. }
  destruct Hcat as [Hc|Hc].
  - rewrite Hc. cbn [opt_eqb]. rewrite String.eqb_refl. apply Hb.
  - destruct (opt_eqb (t_category_id t) (inflows_category_id ctx)); [apply Hb|].
    rewrite Hc. apply Hb.
Qed.

Lemma starting_balance_skipped_witness :
  let ctx := mkCtx sample_accounts sample_groups sample_categories ∅
               "Assets" "Expenses" "Income" "c-inflows" "USD" true None in
  let t := mkTransaction "t-sb" "2026-01-01" 500000 None "reconciled" false
             (Some "Starting Balance") "a-checking" (Some "c-inflows") None None [] in
  (skip_starting_balances ctx = true /\ t_payee_name t = Some "Starting Balance" /\
   (t_category_id t = Some (inflows_category_id ctx) \/ truthy (t_category_id t) = false)) /\
  frame (st0 ∅) (fst (process ctx t (st0 ∅))) /\
  (forall a, to_bean ctx (t_account_id t) = Ok a -> snd (process ctx t (st0 ∅)) = Ok tt).
Proof.
  intros ctx t. split; [split; [reflexivity|split; [reflexivity|left; reflexivity]]|].
  apply starting_balance_skipped.
  - reflexivity.
  - reflexivity.
  - left. reflexivity.
Defined.

(** X15: a transaction that is not skipped as a starting balance (its payee
    is not [Starting Balance], or skipping is off), whose payee is not
    [Reconciliation Balance Adjustment], that is not yet seen (neither its id
    nor its transfer id), has neither a category nor a transfer account and
    no subtransactions, and whose account and amount convert, is still
    imported: the run logs the warning of lines 387-392 and prints the entry
    with the [FIXME] comment of [get_target_account] as its second leg. *)
Theorem no_leg_imported_with_fixme ctx t s a m :
  opt_eqb (t_payee_name t) "Starting Balance" = false \/ skip_starting_balances ctx = false ->
  opt_eqb (t_payee_name t) "Reconciliation Balance Adjustment" = false ->
  truthy (t_category_id t) = false -> truthy (t_transfer_account_id t) = false ->
  t_subtransactions t = [] ->
  t_id t ∉ seen_transactions s ->
  opt_mem (t_transfer_transaction_id t) (seen_transactions s) = false ->
  to_bean ctx (t_account_id t) = Ok a -> from_milli (t_amount t) = Ok m ->
  out (fst (process ctx t s)) = out s ++
    [LHeader (t_date t) (t_payee_name t) (fmt_memo (t_memo t)); LMeta (t_id t);
     LPosting a m (commodity ctx); LBare FIXME_leg; LBlank] /\
  count (fst (process ctx t s)) = count s + 1 /\
  logs (fst (process ctx t s)) = logs s ++ [WarnNoLeg (t_date t) a (t_payee_name t) m] /\
  snd (process ctx t s) = Ok tt.
Proof.
  intros Hsb Hpay Hcat Htr Hsubs Hnew Hmem Ha Hm.
  assert (Hpc : process ctx t s = process_checked ctx t s).
  { unfold process. destruct (skip_starting_balances ctx); [|reflexivity].
    destruct Hsb as [Hsb|Hsb]; [|discriminate]. rewrite Hsb, !andb_false_l. reflexivity. }
  assert (Hcv : truthy_value (t_category_id t) = None) by (unfold truthy_value; now rewrite Hcat).
  assert (Htv : truthy_value (t_transfer_account_id t) = None) by (unfold truthy_value; now rewrite Htr).
  rewrite Hpc. destruct (process_checked ctx t s) as [s' r] eqn:Er.
  unfold process_checked, warn_no_leg, dedup_gate, emit, get_target_account,
    bind, lift, log, get_seen, incr_count, print, add_seen, ret in Er.
  rewrite Hcat, Htr, Hcv, Htv, Ha, Hm, Hsubs in Er. cbn [negb andb seen_transactions] in Er.
  rewrite (bool_decide_eq_false_2 _ Hnew), Hmem in Er.
  destruct (truthy_value (balance_adjustment_account ctx)); [rewrite Hpay, andb_false_l in Er|];
  destruct (truthy_value (t_transfer_transaction_id t)); simpl in Er; inversion Er; subst; simpl;
  rewrite <- !app_assoc; simpl; split_and!; reflexivity.
Qed.

Lemma no_leg_imported_with_fixme_witness :
  let t := sample_txn "t-n" None None None (-2500) [] in
  exists m, from_milli (t_amount t) = Ok m /\
  out (fst (process (sample_ctx ∅) t (st0 ∅))) = out (st0 ∅) ++
    [LHeader (t_date t) (t_payee_name t) (fmt_memo (t_memo t)); LMeta (t_id t);
     LPosting "Assets:Checking" m (commodity (sample_ctx ∅)); LBare FIXME_leg; LBlank] /\
  count (fst (process (sample_ctx ∅) t (st0 ∅))) = count (st0 ∅) + 1 /\
  logs (fst (process (sample_ctx ∅) t (st0 ∅))) =
    logs (st0 ∅) ++ [WarnNoLeg (t_date t) "Assets:Checking" (t_payee_name t) m] /\
  snd (process (sample_ctx ∅) t (st0 ∅)) = Ok tt.
Proof.
  intros t. eexists. split; [vm_compute; reflexivity|].
  apply no_leg_imported_with_fixme.
  - right. reflexivity.
  - reflexivity.
  - reflexivity.
  - reflexivity.
  - reflexivity.
  - set_solver.
  - reflexivity.
  - vm_compute. reflexivity.
  - vm_compute. reflexivity.
Defined.

(** ** Subtransaction postings *)

Lemma bind_assoc_at {A B C} (m : M A) (k : A -> M B) (h : B -> M C) s :
  bind (bind m k) h s = bind m (fun a => bind (k a) h) s.
Proof. unfold bind. destruct (m s) as [s' [a|e]]; reflexivity. Qed.

Lemma bind_ext_at {A B} (m : M A) (k1 k2 : A -> M B) s :
  (forall a s', k1 a s' = k2 a s') -> bind m k1 s = bind m k2 s.
Proof. intros H. unfold bind. destruct (m s) as [s' [a|e]]; [apply H|reflexivity]. Qed.

Lemma emit_subtransactions_app ctx l1 l2 s :
  emit_subtransactions ctx (l1 ++ l2) s =
    bind (emit_subtransactions ctx l1) (fun _ => emit_subtransactions ctx l2) s.
Proof.
  revert s. induction l1 as [|sub l1 IH]; intros s; [reflexivity|].
  cbn [app emit_subtransactions].
  do 5 (rewrite bind_assoc_at; apply bind_ext_at; intros ? ?).
  apply IH.
Qed.

(** C6 (amended): take any subtransaction [sub] of a split, with a milliunit
    amount of at most 28 digits (every 64-bit amount has at most 19).  When
    the loop reaches it (the subtransactions before it completed, whatever
    their amounts) and its target account resolves, the next line printed
    is its posting, whose amount denotes exactly [-(x/1000)]. *)
Theorem sub_posting_amount_negated ctx pre sub post s s1 s2 tgt :
  Z.abs (sub_amount sub) < 10 ^ 28 ->
  emit_subtransactions ctx pre s = (s1, Ok tt) ->
  get_target_account ctx (sub_payee_name sub) (sub_memo sub) (sub_category_id sub)
    (sub_transfer_account_id sub) (sub_id sub) (balance_adjustment_account ctx) s1 = (s2, Ok tgt) ->
  exists d rest,
    out (fst (emit_subtransactions ctx (pre ++ sub :: post) s)) =
      out s1 ++ LSubPosting tgt d (commodity ctx) (sub_memo sub) :: rest /\
    Qeq (PyDecimal.value d) (- (sub_amount sub # 1000)).
Proof.
  intros Hx Hpre Hg.
  pose proof (out_get_target_account ctx (sub_payee_name sub) (sub_memo sub)
    (sub_category_id sub) (sub_transfer_account_id sub) (sub_id sub)
    (balance_adjustment_account ctx) s1) as Hout.
  rewrite Hg in Hout. simpl in Hout.
  rewrite emit_subtransactions_app, (bind_ok _ _ _ _ _ Hpre).
  cbn [emit_subtransactions]. rewrite (bind_ok _ _ _ _ _ Hg).
  destruct (DecimalFacts.from_milli_exact _ Hx) as (c & e & Hm & Hc & He & Hpos & Hval).
  rewrite (bind_ok (lift (from_milli (sub_amount sub))) _ s2 s2 _)
    by (unfold lift; rewrite Hm; reflexivity).
  rewrite (bind_ok (lift (PyDecimal.neg _)) _ s2 s2 _)
    by (unfold lift; rewrite DecimalFacts.neg_exact by lia; reflexivity).
  rewrite (bind_ok (print _) _ s2 _ tt) by reflexivity.
  match goal with |- context [fst (?m ?s')] =>
    assert (Hq : quiet m) by solve_quiet; destruct (Hq s') as (new & Ho & _ & _ & _) end.
  rewrite Ho. cbn [out]. rewrite Hout.
  eexists _, new. split; [rewrite <- app_assoc; reflexivity|].
  apply DecimalFacts.value_neg_milli; lia.
Qed.

Lemma sub_posting_amount_negated_witness :
  let ctx := sample_ctx ∅ in
  let pre := [mkSubtransaction "s-big" (10 ^ 28 + 1) None None None (Some "a-savings") None] in
  let sub := mkSubtransaction "s-1" (-3000) None None None (Some "a-savings") (Some "t-x") in
  let s1 := fst (emit_subtransactions ctx pre (st0 ∅)) in
  let s2 := fst (get_target_account ctx (sub_payee_name sub) (sub_memo sub) (sub_category_id sub)
                   (sub_transfer_account_id sub) (sub_id sub) (balance_adjustment_account ctx) s1) in
  (Z.abs (sub_amount sub) < 10 ^ 28 /\
   emit_subtransactions ctx pre (st0 ∅) = (s1, Ok tt) /\
   get_target_account ctx (sub_payee_name sub) (sub_memo sub) (sub_category_id sub)
     (sub_transfer_account_id sub) (sub_id sub) (balance_adjustment_account ctx) s1 =
     (s2, Ok "Assets:Savings")) /\
  exists d rest,
    out (fst (emit_subtransactions ctx (pre ++ sub :: []) (st0 ∅))) =
      out s1 ++ LSubPosting "Assets:Savings" d (commodity ctx) (sub_memo sub) :: rest /\
    Qeq (PyDecimal.value d) (- (sub_amount sub # 1000)).
Proof.
  intros ctx pre sub s1 s2.
  assert (H1 : Z.abs (sub_amount sub) < 10 ^ 28) by (simpl; lia).
  assert (H2 : emit_subtransactions ctx pre (st0 ∅) = (s1, Ok tt)) by (vm_compute; reflexivity).
  assert (H3 : get_target_account ctx (sub_payee_name sub) (sub_memo sub) (sub_category_id sub)
     (sub_transfer_account_id sub) (sub_id sub) (balance_adjustment_account ctx) s1 =
     (s2, Ok "Assets:Savings")) by (vm_compute; reflexivity).
  split; [auto|].
  exact (sub_posting_amount_negated ctx pre sub [] (st0 ∅) s1 s2 "Assets:Savings" H1 H2 H3).
Defined.


(** ** The order of the fetched transactions *)

Lemma translatable_ret {A} (a : A) : translatable (ret a).
Proof. intros f s. reflexivity. Qed.
Lemma translatable_lift {A} (r : res A) : translatable (lift r).
Proof. intros f s. reflexivity. Qed.
Lemma translatable_print l : translatable (print l).
Proof. intros f s. unfold print, shift. simpl. rewrite <- app_assoc. reflexivity. Qed.
Lemma translatable_log e : translatable (log e).
Proof. intros f s. unfold log, shift. simpl. rewrite <- app_assoc. reflexivity. Qed.
Lemma translatable_add_seen x : translatable (add_seen x).
Proof. intros f s. unfold add_seen, shift. simpl. do 2 f_equal. set_solver. Qed.
Lemma translatable_incr_count : translatable incr_count.
Proof. intros f s. unfold incr_count, shift. simpl. do 2 f_equal. lia. Qed.

Lemma translatable_bind {A B} (m : M A) (k : A -> M B) :
  translatable m -> (forall a, translatable (k a)) -> translatable (bind m k).
Proof.
  intros Hm Hk f s. unfold bind. rewrite Hm.
  destruct (m s) as [s1 [a|e]]; simpl; [apply Hk|reflexivity].
Qed.

Create HintDb translatable_db.
#[local] Hint Resolve translatable_ret translatable_lift translatable_print translatable_log
  translatable_add_seen translatable_incr_count : translatable_db.

Ltac solve_translatable :=
  repeat (match goal with
          | |- translatable (bind _ _) => apply translatable_bind; [|intro]
          | |- translatable (if ?b then _ else _) => destruct b
          | |- translatable (match ?o with _ => _ end) => destruct o
          end; auto with translatable_db);
  auto with translatable_db.

Lemma translatable_get_target_account ctx p m c a i adj :
  translatable (get_target_account ctx p m c a i adj).
Proof. unfold get_target_account. solve_translatable. Qed.
#[local] Hint Resolve translatable_get_target_account : translatable_db.

Lemma translatable_emit_subtransactions ctx subs : translatable (emit_subtransactions ctx subs).
Proof. induction subs as [|sub subs IH]; simpl; solve_translatable. Qed.
#[local] Hint Resolve translatable_emit_subtransactions : translatable_db.

Lemma translatable_emit ctx t : translatable (emit ctx t).
Proof. unfold emit. solve_translatable. Qed.

Lemma translatable_warn_no_leg ctx t : translatable (warn_no_leg ctx t).
Proof. unfold warn_no_leg. solve_translatable. Qed.

(** The loop body reads the state only through the two look-ups of the
    deduplication gate. *)
Lemma process_shift ctx t f s :
  (forall x, In x (dedup_keys t) -> x ∈ seen_transactions f -> x ∈ seen_transactions s) ->
  process ctx t (shift f s) = (shift f (fst (process ctx t s)), snd (process ctx t s)).
Proof.
  intros Hk.
  assert (Hpc : process_checked ctx t (shift f s) =
                (shift f (fst (process_checked ctx t s)), snd (process_checked ctx t s))).
  { unfold process_checked, bind. rewrite (translatable_warn_no_leg ctx t f s).
    pose proof (warn_no_leg_frame ctx t s) as Hw.
    destruct (warn_no_leg ctx t s) as [s1 [[]|e]]; simpl in *; [|reflexivity].
    destruct Hw as (Hs1 & _ & _).
    unfold dedup_gate.
    rewrite (bind_ok get_seen _ (shift f s1) (shift f s1) (seen_transactions (shift f s1))) by reflexivity.
    rewrite (bind_ok get_seen _ s1 s1 (seen_transactions s1)) by reflexivity.
    replace (seen_transactions (shift f s1)) with (seen_transactions f ∪ seen_transactions s1)
      by reflexivity.
    assert (E1 : bool_decide (t_id t ∈ seen_transactions f ∪ seen_transactions s1) =
                 bool_decide (t_id t ∈ seen_transactions s1)).
    { apply bool_decide_ext. rewrite elem_of_union, Hs1.
      specialize (Hk (t_id t) (or_introl eq_refl)). tauto. }
    assert (E2 : opt_mem (t_transfer_transaction_id t) (seen_transactions f ∪ seen_transactions s1) =
                 opt_mem (t_transfer_transaction_id t) (seen_transactions s1)).
    { unfold opt_mem. destruct (t_transfer_transaction_id t) as [x|] eqn:Ex; [|reflexivity].
      apply bool_decide_ext. rewrite elem_of_union, Hs1.
      assert (Hx : x ∈ seen_transactions f -> x ∈ seen_transactions s)
        by (apply Hk; unfold dedup_keys; rewrite ?Ex; simpl; auto).
      tauto. }
    rewrite E1, E2.
    destruct (bool_decide (t_id t ∈ seen_transactions s1)); [apply translatable_log|].
    destruct (opt_mem (t_transfer_transaction_id t) (seen_transactions s1));
      [apply translatable_log|apply translatable_emit]. }
  unfold process. destruct (skip_starting_balances ctx); [|exact Hpc].
  destruct (opt_eqb (t_payee_name t) "Starting Balance" &&
            opt_eqb (t_category_id t) (inflows_category_id ctx)).
  { apply translatable_bind; [apply translatable_lift|intros; apply translatable_log]. }
  destruct (opt_eqb (t_payee_name t) "Starting Balance" && negb (truthy (t_category_id t))).
  { apply translatable_bind; [apply translatable_lift|intros; apply translatable_log]. }
  exact Hpc.
Qed.

Lemma adds_within_mono {A} (X Y : gset string) (m : M A) :
  X ⊆ Y -> adds_within X m -> adds_within Y m.
Proof. intros HXY Hm s. specialize (Hm s). set_solver. Qed.

Lemma adds_within_bind {A B} X (m : M A) (k : A -> M B) :
  adds_within X m -> (forall a, adds_within X (k a)) -> adds_within X (bind m k).
Proof.
  intros Hm Hk s. unfold bind. specialize (Hm s).
  destruct (m s) as [s1 [a|e]]; simpl in *; [|exact Hm].
  specialize (Hk a s1). set_solver.
Qed.

Lemma adds_within_ret {A} X (a : A) : adds_within X (ret a).
Proof. intros s. simpl. set_solver. Qed.
Lemma adds_within_lift {A} X (r : res A) : adds_within X (lift r).
Proof. intros s. simpl. set_solver. Qed.
Lemma adds_within_print X l : adds_within X (print l).
Proof. intros s. simpl. set_solver. Qed.
Lemma adds_within_log X e : adds_within X (log e).
Proof. intros s. simpl. set_solver. Qed.
Lemma adds_within_incr_count X : adds_within X incr_count.
Proof. intros s. simpl. set_solver. Qed.
Lemma adds_within_get_seen X : adds_within X get_seen.
Proof. intros s. simpl. set_solver. Qed.
Lemma adds_within_add_seen X x : x ∈ X -> adds_within X (add_seen x).
Proof. intros Hx s. simpl. set_solver. Qed.

Create HintDb adds_db.
#[local] Hint Resolve adds_within_ret adds_within_lift adds_within_print adds_within_log
  adds_within_incr_count adds_within_get_seen : adds_db.

Ltac solve_adds :=
  repeat (match goal with
          | |- adds_within _ (bind _ _) => apply adds_within_bind; [|intro]
          | |- adds_within _ (if ?b then _ else _) => destruct b
          end; auto with adds_db);
  auto with adds_db.

Lemma adds_within_get_target_account X ctx p m c a i adj :
  adds_within X (get_target_account ctx p m c a i adj).
Proof.
  unfold get_target_account.
  destruct (truthy_value adj); [destruct (_ && _); solve_adds|];
    destruct (truthy_value c); solve_adds; destruct (truthy_value a); solve_adds.
Qed.
#[local] Hint Resolve adds_within_get_target_account : adds_db.

Lemma adds_within_emit_subtransactions ctx subs :
  adds_within (list_to_set (flat_map (fun sub => opt_list (truthy_value (sub_transfer_transaction_id sub))) subs))
    (emit_subtransactions ctx subs).
Proof.
  induction subs as [|sub subs IH]; cbn [emit_subtransactions]; [apply adds_within_ret|].
  solve_adds.
  - destruct (truthy_value (sub_transfer_transaction_id sub)) as [x|] eqn:Ex; [|apply adds_within_ret].
    apply adds_within_add_seen. cbn [flat_map]. rewrite Ex. simpl. set_solver.
  - eapply adds_within_mono; [|exact IH]. cbn [flat_map]. rewrite list_to_set_app_L. set_solver.
Qed.

Lemma adds_within_process ctx t :
  adds_within (list_to_set (seen_marks t)) (process ctx t).
Proof.
  assert (He : adds_within (list_to_set (seen_marks t)) (emit ctx t)).
  { unfold emit. solve_adds.
    - apply adds_within_add_seen. unfold seen_marks. simpl. set_solver.
    - destruct (truthy_value (t_transfer_transaction_id t)) as [x|] eqn:Ex; [|apply adds_within_ret].
      apply adds_within_add_seen. unfold seen_marks. rewrite Ex. simpl. set_solver.
    - destruct (t_subtransactions t) as [|sub subs] eqn:Es; [solve_adds|].
      eapply adds_within_mono; [|apply adds_within_emit_subtransactions].
      unfold seen_marks. rewrite Es. simpl. rewrite !list_to_set_app_L. set_solver. }
  assert (Hpc : adds_within (list_to_set (seen_marks t)) (process_checked ctx t)).
  { unfold process_checked, warn_no_leg, dedup_gate. solve_adds;
      destruct (opt_mem _ _); solve_adds. }
  unfold process. destruct (skip_starting_balances ctx); [|exact Hpc].
  destruct (_ && _); [solve_adds|]. destruct (_ && _); [solve_adds|exact Hpc].
Qed.

Lemma shift_local s f :
  seen_transactions f ⊆ seen_transactions s -> count f = count s -> out f = out s ->
  logs f = logs s -> shift f (local_state s) = s.
Proof.
  intros Hs Hc Ho Hl. destruct s as [se c o l]. unfold shift, local_state. simpl in *.
  rewrite Hc, Ho, Hl, !app_nil_r, Z.add_0_r. f_equal. set_solver.
Qed.

(** Over independent transactions each of which completes on its own, the
    loop prints the entries of the transactions one after the other, each
    as it is printed on its own. *)
Lemma loop_blocks ctx s0 ts f :
  independent ts ->
  (forall t, In t ts -> snd (process ctx t (local_state s0)) = Ok tt) ->
  (forall t, In t ts -> forall x, In x (dedup_keys t) ->
     x ∈ seen_transactions f -> x ∈ seen_transactions s0) ->
  snd (loop ctx ts (shift f (local_state s0))) = Ok tt /\
  out (fst (loop ctx ts (shift f (local_state s0)))) =
    out f ++ concat (map (entry_block ctx s0) ts) /\
  count (fst (loop ctx ts (shift f (local_state s0)))) =
    count f + foldr (fun t acc => entry_count ctx s0 t + acc) 0 ts.
Proof.
  revert f. induction ts as [|t ts IH]; intros f Hind Hok Hfr.
  - simpl. rewrite !app_nil_r. split_and!; [reflexivity|reflexivity|lia].
  - cbn [loop]. unfold bind.
    rewrite process_shift by (intros x Hx Hf; exact (Hfr t (or_introl eq_refl) x Hx Hf)).
    rewrite (Hok t (or_introl eq_refl)).
    set (P := fst (process ctx t (local_state s0))).
    set (f' := mkSt (seen_transactions f ∪ seen_transactions P) (count f + count P)
                 (out f ++ out P) (logs f ++ logs P)).
    assert (Hsh : shift f P = shift f' (local_state s0)).
    { pose proof (grows_process ctx t (local_state s0)) as Hgr. fold P in Hgr.
      unfold shift, f', local_state in *. simpl in *.
      rewrite !app_nil_r, Z.add_0_r. f_equal. set_solver. }
    rewrite Hsh.
    destruct Hind as [Hnd Hpair].
    assert (Hnotin : ~ In (t_id t) (map t_id ts)).
    { inversion Hnd as [|? ? Hn _]. intros Hin. apply Hn. apply list_elem_of_In. exact Hin. }
    destruct (IH f') as (H1 & H2 & H3).
    + split; [inversion Hnd; assumption|].
      intros t1 u1 Ht1 Hu1 Hne. apply (Hpair t1 u1); [right; exact Ht1|right; exact Hu1|exact Hne].
    + intros u Hu. apply Hok. right. exact Hu.
    + intros u Hu x Hx Hxf. unfold f' in Hxf. simpl in Hxf.
      apply elem_of_union in Hxf as [Hxf|Hxp]; [exact (Hfr u (or_intror Hu) x Hx Hxf)|].
      pose proof (adds_within_process ctx t (local_state s0)) as Had. fold P in Had.
      apply Had in Hxp.
      apply elem_of_union in Hxp as [Hxp|Hxm]; [exact Hxp|].
      exfalso. apply elem_of_list_to_set, list_elem_of_In in Hxm.
      refine (Hpair t u (or_introl eq_refl) (or_intror Hu) _ x Hxm Hx).
      intros Heq. apply Hnotin. rewrite Heq. apply in_map. exact Hu.
    + split_and!; [exact H1| |].
      * rewrite H2. unfold f'. simpl. rewrite <- app_assoc. reflexivity.
      * rewrite H3. unfold f'. simpl. unfold entry_count. fold P. lia.
Qed.

Lemma independent_perm ts ts' : Permutation ts ts' -> independent ts -> independent ts'.
Proof.
  intros Hp [Hnd Hpair]. split.
  - assert (Hm : Permutation (map t_id ts) (map t_id ts')) by (apply Permutation_map; exact Hp).
    rewrite <- Hm. exact Hnd.
  - intros t u Ht Hu. apply Hpair; (eapply Permutation_in; [symmetry; exact Hp|assumption]).
Qed.

Lemma perm_filter_eligible ts ts' :
  Permutation ts ts' -> Permutation (List.filter eligible ts) (List.filter eligible ts').
Proof.
  induction 1 as [|x l l' _ IH|x y l|l l' l'' _ IH1 _ IH2]; simpl.
  - constructor.
  - destruct (eligible x); [constructor|]; exact IH.
  - destruct (eligible x), (eligible y); try constructor; reflexivity.
  - etransitivity; eauto.
Qed.

Lemma perm_entry_counts ctx s ts ts' :
  Permutation ts ts' ->
  foldr (fun t acc => entry_count ctx s t + acc) 0 ts =
  foldr (fun t acc => entry_count ctx s t + acc) 0 ts'.
Proof. induction 1; simpl; lia. Qed.

Lemma import_loop_blocks ctx ts s :
  independent (List.filter eligible ts) ->
  (forall t, In t (List.filter eligible ts) -> snd (process ctx t s) = Ok tt) ->
  snd (import_loop ctx ts s) = Ok tt /\
  out (fst (import_loop ctx ts s)) = out s ++ concat (map (entry_block ctx s) (List.filter eligible ts)) /\
  count (fst (import_loop ctx ts s)) =
    count s + foldr (fun t acc => entry_count ctx s t + acc) 0 (List.filter eligible ts).
Proof.
  intros Hind Hok. unfold import_loop.
  assert (Hok' : forall t, In t (List.filter eligible ts) ->
                   snd (process ctx t (local_state s)) = Ok tt).
  { intros t Ht. specialize (Hok t Ht). rewrite <- (shift_local s (mkSt ∅ (count s) (out s) (logs s))) in Hok
      by (simpl; first [set_solver|reflexivity]).
    rewrite process_shift in Hok by (intros x _ Hx; simpl in Hx; set_solver). exact Hok. }
  pose proof (loop_blocks ctx s (List.filter eligible ts) (mkSt ∅ (count s) (out s) (logs s))
                Hind Hok' ltac:(intros t _ x _ Hx; simpl in Hx; set_solver)) as H.
  match type of H with context [shift ?f (local_state s)] =>
    rewrite (shift_local s f) in H by (simpl; first [set_solver|reflexivity]) end.
  exact H.
Qed.

(** C7 (amended): the core does not re-sort the fetched transactions; it
    processes the reconciled, non-deleted ones in fetch order.  For inputs
    whose transactions cannot make the deduplication gate skip one another
    ([independent]) and each of which is processed without an exception,
    the run prints each transaction's entry exactly as it is printed on its
    own, one after the other in fetch order: a permutation of the input
    permutes the printed entries and leaves the import count unchanged. *)
Theorem import_loop_in_fetch_order ctx ts ts' s :
  Permutation ts ts' ->
  independent (List.filter eligible ts) ->
  (forall t, In t (List.filter eligible ts) -> snd (process ctx t s) = Ok tt) ->
  out (fst (import_loop ctx ts s)) =
    out s ++ concat (map (entry_block ctx s) (List.filter eligible ts)) /\
  out (fst (import_loop ctx ts' s)) =
    out s ++ concat (map (entry_block ctx s) (List.filter eligible ts')) /\
  Permutation (map (entry_block ctx s) (List.filter eligible ts))
              (map (entry_block ctx s) (List.filter eligible ts')) /\
  count (fst (import_loop ctx ts s)) = count (fst (import_loop ctx ts' s)) /\
  snd (import_loop ctx ts s) = Ok tt /\ snd (import_loop ctx ts' s) = Ok tt.
Proof.
  intros Hp Hind Hok.
  pose proof (perm_filter_eligible ts ts' Hp) as Hpf.
  destruct (import_loop_blocks ctx ts s Hind Hok) as (H1 & H2 & H3).
  destruct (import_loop_blocks ctx ts' s) as (H1' & H2' & H3').
  - exact (independent_perm _ _ Hpf Hind).
  - intros t Ht. apply Hok. eapply Permutation_in; [symmetry; exact Hpf|exact Ht].
  - split_and!; [exact H2|exact H2'|apply Permutation_map; exact Hpf| |exact H1|exact H1'].
    rewrite H3, H3'. f_equal. apply perm_entry_counts. exact Hpf.
Qed.

Lemma import_loop_in_fetch_order_witness :
  (Permutation [pay_a; pay_b] [pay_b; pay_a] /\
   independent (List.filter eligible [pay_a; pay_b]) /\
   (forall t, In t (List.filter eligible [pay_a; pay_b]) -> snd (process (sample_ctx ∅) t (st0 ∅)) = Ok tt)) /\
  out (fst (import_loop (sample_ctx ∅) [pay_a; pay_b] (st0 ∅))) =
    out (st0 ∅) ++ concat (map (entry_block (sample_ctx ∅) (st0 ∅)) (List.filter eligible [pay_a; pay_b])) /\
  out (fst (import_loop (sample_ctx ∅) [pay_b; pay_a] (st0 ∅))) =
    out (st0 ∅) ++ concat (map (entry_block (sample_ctx ∅) (st0 ∅)) (List.filter eligible [pay_b; pay_a])) /\
  Permutation (map (entry_block (sample_ctx ∅) (st0 ∅)) (List.filter eligible [pay_a; pay_b]))
              (map (entry_block (sample_ctx ∅) (st0 ∅)) (List.filter eligible [pay_b; pay_a])) /\
  count (fst (import_loop (sample_ctx ∅) [pay_a; pay_b] (st0 ∅))) =
    count (fst (import_loop (sample_ctx ∅) [pay_b; pay_a] (st0 ∅))) /\
  snd (import_loop (sample_ctx ∅) [pay_a; pay_b] (st0 ∅)) = Ok tt /\
  snd (import_loop (sample_ctx ∅) [pay_b; pay_a] (st0 ∅)) = Ok tt.
Proof.
  assert (Hf : List.filter eligible [pay_a; pay_b] = [pay_a; pay_b]) by reflexivity.
  assert (Hp : Permutation [pay_a; pay_b] [pay_b; pay_a]) by apply perm_swap.
  assert (Hi : independent (List.filter eligible [pay_a; pay_b])).
  { rewrite Hf. split.
    - apply (bool_decide_unpack _). vm_compute. reflexivity.
    - intros t u Ht Hu Hne x Hx Hy.
      destruct Ht as [<-|[<-|[]]]; destruct Hu as [<-|[<-|[]]]; try (apply Hne; reflexivity);
        vm_compute in Hx, Hy; destruct Hx as [<-|[]]; destruct Hy as [Hy|[]]; discriminate. }
  assert (Ho : forall t, In t (List.filter eligible [pay_a; pay_b]) ->
                 snd (process (sample_ctx ∅) t (st0 ∅)) = Ok tt).
  { rewrite Hf. intros t [<-|[<-|[]]]; vm_compute; reflexivity. }
  split; [split; [exact Hp|split; [exact Hi|exact Ho]]|].
  exact (import_loop_in_fetch_order (sample_ctx ∅) [pay_a; pay_b] [pay_b; pay_a] (st0 ∅) Hp Hi Ho).
Defined.
